(** * Gmail inbox summarizer: message normalisation core

    A shallow embedding of the three functions of [main.py] that turn a
    Gmail message payload into a normalised record:

    - [_decode_part]               (main.py, lines 43-47)
    - [extract_body_from_payload]  (main.py, lines 50-82)
    - [fetch_unread_emails]        (main.py, lines 85-116)

    and of [analyze_email] (main.py, lines 152-165), which hands a record
    to the three language-model chains.

    Python values are modelled as follows.  A [str] is the list of its
    Unicode code points, a [bytes] object the list of its octets, both as
    [Z].  A raised exception is the [Raise] branch of [result]; a JSON
    object read with [dict.get] is a record whose fields are [option]s, the
    default of each [get] being applied where the code applies it.

    The standard-library calls of [_decode_part] ([str.encode],
    [base64.urlsafe_b64decode], [bytes.decode] with [errors="ignore"]) are
    modelled after CPython's implementation.  The Gmail service,
    BeautifulSoup's [get_text] and the Unicode tables behind [str.lower]
    are taken as parameters. *)

From Stdlib Require Import ZArith List Bool Lia String Ascii.
Import ListNotations.
Open Scope Z_scope.

(** ** Python values *)

Definition str := list Z.
Definition bytes := list Z.

(** A string literal of the source (all of them are ASCII). *)
Definition lit (s : string) : str :=
  map (fun a => Z.of_N (N_of_ascii a)) (list_ascii_of_string s).

Definition str_eqb (a b : str) : bool :=
  if list_eq_dec Z.eq_dec a b then true else false.

(** Truthiness of the value returned by [d.get(key)] for a string field:
    [None] and the empty string are falsy. *)
Definition truthy (d : option str) : bool :=
  match d with
  | None => false
  | Some [] => false
  | Some (_ :: _) => true
  end.

(** [sep.join(l)]. *)
Fixpoint join (sep : str) (l : list str) : str :=
  match l with
  | [] => []
  | [x] => x
  | x :: rest => x ++ sep ++ join sep rest
  end.

(** ** Exceptions *)

Inductive exn : Type :=
| UnicodeEncodeError          (* str.encode on a lone surrogate *)
| binascii_Error              (* malformed base64 *)
| ParserRejectedMarkup        (* raised inside BeautifulSoup *)
| ServiceError (code : Z).    (* raised inside the Gmail client *)

Inductive result (A : Type) : Type :=
| Ok (a : A)
| Raise (e : exn).
Arguments Ok {A} a.
Arguments Raise {A} e.

Definition bind {A B} (m : result A) (k : A -> result B) : result B :=
  match m with
  | Ok a => k a
  | Raise e => Raise e
  end.

Notation "x <- m ;; k" := (bind m (fun x => k))
  (at level 61, m at next level, right associativity).

(** ** Bounded checks by evaluation *)

Fixpoint forall_below (n : nat) (P : Z -> bool) : bool :=
  match n with
  | O => true
  | S k => P (Z.of_nat k) && forall_below k P
  end.

(** ** UTF-8 (CPython's codec) *)

Module Utf8.

(** Code points that [str.encode("utf-8")] accepts: Unicode scalar values. *)
Definition is_surrogate (ch : Z) : bool := (0xD800 <=? ch) && (ch <=? 0xDFFF).

Definition scalar (ch : Z) : Prop :=
  0 <= ch <= 0x10FFFF /\ is_surrogate ch = false.

(** One step of [utf8_encoder] with the default (strict) error handler. *)
Definition encode_cp (ch : Z) : result bytes :=
  if ch <? 0x80 then Ok [ch]
  else if ch <? 0x800 then
    Ok [Z.lor 0xC0 (Z.shiftr ch 6); Z.lor 0x80 (Z.land ch 0x3F)]
  else if is_surrogate ch then Raise UnicodeEncodeError
  else if ch <? 0x10000 then
    Ok [Z.lor 0xE0 (Z.shiftr ch 12);
        Z.lor 0x80 (Z.land (Z.shiftr ch 6) 0x3F);
        Z.lor 0x80 (Z.land ch 0x3F)]
  else
    Ok [Z.lor 0xF0 (Z.shiftr ch 18);
        Z.lor 0x80 (Z.land (Z.shiftr ch 12) 0x3F);
        Z.lor 0x80 (Z.land (Z.shiftr ch 6) 0x3F);
        Z.lor 0x80 (Z.land ch 0x3F)].

(** [s.encode("utf-8")] *)
Fixpoint encode (s : str) : result bytes :=
  match s with
  | [] => Ok []
  | ch :: rest =>
      b <- encode_cp ch ;;
      bs <- encode rest ;;
      Ok (b ++ bs)
  end.

Definition is_continuation (b : Z) : bool := (0x80 <=? b) && (b <? 0xC0).

(** [b.decode("utf-8", errors="ignore")]: the decoder of
    [stringlib/codecs.h], where the error handler [ignore] skips the
    offending bytes: one byte for an invalid start byte, [n] bytes for an
    invalid continuation byte at offset [n], everything left for a
    truncated sequence at the end of the data. *)
Fixpoint decode_ignore (s : bytes) : str :=
  match s with
  | [] => []
  | ch :: t1 =>
    if ch <? 0x80 then ch :: decode_ignore t1
    else if ch <? 0xE0 then
      if ch <? 0xC2 then decode_ignore t1                    (* invalid start *)
      else match t1 with
        | [] => []                                           (* truncated *)
        | ch2 :: t2 =>
          if negb (is_continuation ch2) then decode_ignore t1
          else (Z.shiftl ch 6 + ch2 - (Z.shiftl 0xC0 6 + 0x80))
                 :: decode_ignore t2
        end
    else if ch <? 0xF0 then
      match t1 with
      | [] => []
      | ch2 :: t2 =>
        if negb (is_continuation ch2)
           || (if ch2 <? 0xA0 then ch =? 0xE0 else ch =? 0xED)
        then decode_ignore t1
        else match t2 with
          | [] => []
          | ch3 :: t3 =>
            if negb (is_continuation ch3) then decode_ignore t2
            else (Z.shiftl ch 12 + Z.shiftl ch2 6 + ch3
                  - (Z.shiftl 0xE0 12 + Z.shiftl 0x80 6 + 0x80))
                   :: decode_ignore t3
          end
      end
    else if ch <? 0xF5 then
      match t1 with
      | [] => []
      | ch2 :: t2 =>
        if negb (is_continuation ch2)
           || (if ch2 <? 0x90 then ch =? 0xF0 else ch =? 0xF4)
        then decode_ignore t1
        else match t2 with
          | [] => []
          | ch3 :: t3 =>
            if negb (is_continuation ch3) then decode_ignore t2
            else match t3 with
              | [] => []
              | ch4 :: t4 =>
                if negb (is_continuation ch4) then decode_ignore t3
                else (Z.shiftl ch 18 + Z.shiftl ch2 12 + Z.shiftl ch3 6 + ch4
                      - (Z.shiftl 0xF0 18 + Z.shiftl 0x80 12
                         + Z.shiftl 0x80 6 + 0x80))
                       :: decode_ignore t4
              end
          end
      end
    else decode_ignore t1                                    (* invalid start *)
  end.

End Utf8.

(** ** Base64 (CPython's [base64] and [binascii] modules) *)

Module Base64.

Definition PAD : Z := 61.  (* '=' *)

(** [table_a2b_base64]: the value of a character of the standard alphabet,
    and a value of 64 or more for every other octet. *)
Definition table_a2b (c : Z) : Z :=
  if (65 <=? c) && (c <=? 90) then c - 65            (* A-Z *)
  else if (97 <=? c) && (c <=? 122) then c - 71      (* a-z *)
  else if (48 <=? c) && (c <=? 57) then c + 4        (* 0-9 *)
  else if c =? 43 then 62                            (* + *)
  else if c =? 47 then 63                            (* / *)
  else 255.

(** [_urlsafe_decode_translation = bytes.maketrans(b'-_', b'+/')] *)
Definition urlsafe_decode_translation (c : Z) : Z :=
  if c =? 45 then 43 else if c =? 95 then 47 else c.

(** The loop of [binascii.a2b_base64] in its default, non-strict mode.
    [out] is the output written so far.  Characters outside the alphabet
    are skipped; a pad that completes a quad ends the decoding; data that
    ends inside a quad raises [binascii.Error]. *)
Fixpoint a2b_loop (s : bytes) (quad_pos leftchar pads : Z) (out : bytes)
  : result bytes :=
  match s with
  | [] => if quad_pos =? 0 then Ok out else Raise binascii_Error
  | c :: rest =>
    if c =? PAD then
      if 2 <=? quad_pos then
        if 4 <=? quad_pos + (pads + 1) then Ok out
        else a2b_loop rest quad_pos leftchar (pads + 1) out
      else a2b_loop rest quad_pos leftchar pads out
    else
      let this_ch := table_a2b c in
      if 64 <=? this_ch then a2b_loop rest quad_pos leftchar pads out
      else if quad_pos =? 0 then
        a2b_loop rest 1 this_ch 0 out
      else if quad_pos =? 1 then
        a2b_loop rest 2 (Z.land this_ch 0x0F) 0
          (out ++ [Z.land (Z.lor (Z.shiftl leftchar 2) (Z.shiftr this_ch 4)) 0xFF])
      else if quad_pos =? 2 then
        a2b_loop rest 3 (Z.land this_ch 0x03) 0
          (out ++ [Z.land (Z.lor (Z.shiftl leftchar 4) (Z.shiftr this_ch 2)) 0xFF])
      else
        a2b_loop rest 0 0 0
          (out ++ [Z.land (Z.lor (Z.shiftl leftchar 6) this_ch) 0xFF])
  end.

Definition a2b_base64 (s : bytes) : result bytes := a2b_loop s 0 0 0 [].

(** [base64.urlsafe_b64decode(s)]: translate, then [b64decode]. *)
Definition urlsafe_b64decode (s : bytes) : result bytes :=
  a2b_base64 (map urlsafe_decode_translation s).

(** The encoding side, which the program never calls: RFC 4648 with
    padding, as [base64.urlsafe_b64encode] produces it. *)
Definition table_b2a (v : Z) : Z :=
  if v <? 26 then v + 65
  else if v <? 52 then v + 71
  else if v <? 62 then v - 4
  else if v =? 62 then 43
  else 47.

Fixpoint b2a_base64 (bs : bytes) : bytes :=
  match bs with
  | [] => []
  | [b0] =>
      [table_b2a (Z.shiftr b0 2);
       table_b2a (Z.shiftl (Z.land b0 3) 4); PAD; PAD]
  | [b0; b1] =>
      [table_b2a (Z.shiftr b0 2);
       table_b2a (Z.lor (Z.shiftl (Z.land b0 3) 4) (Z.shiftr b1 4));
       table_b2a (Z.shiftl (Z.land b1 0x0F) 2); PAD]
  | b0 :: b1 :: b2 :: rest =>
      table_b2a (Z.shiftr b0 2)
      :: table_b2a (Z.lor (Z.shiftl (Z.land b0 3) 4) (Z.shiftr b1 4))
      :: table_b2a (Z.lor (Z.shiftl (Z.land b1 0x0F) 2) (Z.shiftr b2 6))
      :: table_b2a (Z.land b2 0x3F)
      :: b2a_base64 rest
  end.

Definition urlsafe_encode_translation (c : Z) : Z :=
  if c =? 43 then 45 else if c =? 47 then 95 else c.

Definition urlsafe_b64encode (bs : bytes) : bytes :=
  map urlsafe_encode_translation (b2a_base64 bs).

End Base64.

(** ** PartDecoder: [_decode_part] *)

(** [bytes.decode("ascii")] of the output of an encoder, and the reading of
    a [bytes] literal as text: octet [b] is code point [b]. *)
Definition ascii_str (b : bytes) : str := b.

Definition _decode_part (data : option str) : result str :=
  if negb (truthy data) then Ok []
  else
    match data with
    | None => Ok []
    | Some d =>
        raw <- Utf8.encode d ;;
        decoded <- Base64.urlsafe_b64decode raw ;;
        Ok (Utf8.decode_ignore decoded)
    end.

(** ** The message structure returned by the Gmail API

    Each field that the code reads with [dict.get] is optional. *)

Record MessagePartBody : Type := { data : option str }.

Record Header : Type := { name : option str; value : option str }.

#[warnings="-register-all"]
Inductive MessagePart : Type :=
  MkPart (mimeType : option str) (body : option MessagePartBody)
         (parts : option (list MessagePart)) (headers : option (list Header)).

Definition from_opt {A} (default : A) (o : option A) : A :=
  match o with Some a => a | None => default end.

(** [part.get("mimeType", "")] *)
Definition get_mime (p : MessagePart) : str :=
  match p with MkPart m _ _ _ => from_opt [] m end.

(** [part.get("body", {}).get("data")] *)
Definition get_data (p : MessagePart) : option str :=
  match p with
  | MkPart _ (Some b) _ _ => data b
  | MkPart _ None _ _ => None
  end.

(** [part.get("parts", []) or []] *)
Definition get_parts (p : MessagePart) : list MessagePart :=
  match p with MkPart _ _ ps _ => from_opt [] ps end.

(** [payload.get("headers", [])] *)
Definition get_headers (p : MessagePart) : list Header :=
  match p with MkPart _ _ _ hs => from_opt [] hs end.

(** The empty dict [{}]. *)
Definition empty_part : MessagePart := MkPart None None None None.

(** A [for] loop whose body may raise, over a state [S]. *)
Fixpoint for_each {A S} (f : A -> S -> result S) (l : list A) (st : S)
  : result S :=
  match l with
  | [] => Ok st
  | x :: rest => st' <- f x st ;; for_each f rest st'
  end.

Definition text_plain : str := lit "text/plain".
Definition text_html : str := lit "text/html".
Definition no_body : str := lit "(No readable body found)".
Definition no_subject : str := lit "(No Subject)".
Definition unknown_sender : str := lit "(Unknown Sender)".
Definition blank_line : str := [10; 10].   (* "\n\n" *)

(** ** BodyExtractor: [extract_body_from_payload] *)

(** The pair [(text_parts, html_parts)]. *)
Definition buckets : Type := (list str * list str)%type.

(** Lines 62-66, and again lines 71-75 for a sub-part: file the decoded
    data of one part under its MIME type. *)
Definition visit (part : MessagePart) (st : buckets) : result buckets :=
  let mime := get_mime part in
  let d := get_data part in
  if truthy d then
    if str_eqb mime text_plain then
      t <- _decode_part d ;; Ok (fst st ++ [t], snd st)
    else if str_eqb mime text_html then
      h <- _decode_part d ;; Ok (fst st, snd st ++ [h])
    else Ok st
  else Ok st.

(** The body of the outer loop, lines 58-75. *)
Definition visit_part (part : MessagePart) (st : buckets) : result buckets :=
  st1 <- visit part st ;;
  for_each visit (get_parts part) st1.

Definition collect (parts : list MessagePart) : result buckets :=
  for_each visit_part parts ([], []).

Section Extractor.

(** [BeautifulSoup(html, "html.parser").get_text()], which raises on
    markup that the parser rejects. *)
Variable get_text : str -> result str.

Definition select (st : buckets) : result str :=
  match fst st with
  | _ :: _ => Ok (join blank_line (fst st))
  | [] =>
    match snd st with
    | h :: _ => get_text h
    | [] => Ok no_body
    end
  end.

Definition extract_body_from_payload (payload : MessagePart) : result str :=
  let body := get_data payload in
  if truthy body then _decode_part body
  else
    st <- collect (get_parts payload) ;;
    select st.

End Extractor.

(** ** InboxFetcher: [fetch_unread_emails] *)

(** An entry of [resp["messages"]]; the code subscripts it with ["id"]. *)
Record MessageRef : Type := { ref_id : str }.

Record ListResponse : Type := { messages : option (list MessageRef) }.

Record MessageData : Type :=
  { payload : option MessagePart; snippet : option str }.

(** The record appended to [results]. *)
Record Email : Type :=
  { e_id : str; e_subject : str; e_sender : str; e_body : str;
    e_snippet : str }.

Definition is_ascii (c : Z) : bool := (0 <=? c) && (c <? 128).

Definition ascii_lower_cp (c : Z) : Z :=
  if (65 <=? c) && (c <=? 90) then c + 32 else c.

Section Fetcher.

Variable get_text : str -> result str.

(** [str.lower()] on a string with a code point outside ASCII, which
    follows the Unicode character database. *)
Variable unicode_lower : str -> str.

Definition lower (s : str) : str :=
  if forallb is_ascii s then map ascii_lower_cp s else unicode_lower s.

(** One iteration of the header loop, lines 98-103, on [(subject, sender)]. *)
Definition header_step (st : str * str) (h : Header) : str * str :=
  let nm := lower (from_opt [] (name h)) in
  if str_eqb nm (lit "subject") then (from_opt (fst st) (value h), snd st)
  else if str_eqb nm (lit "from") then (fst st, from_opt (snd st) (value h))
  else st.

Definition scan_headers (hs : list Header) : str * str :=
  fold_left header_step hs (no_subject, unknown_sender).

(** Lines 92-114, once the message has been retrieved. *)
Definition assemble (m : MessageRef) (mdata : MessageData) : result Email :=
  let pl := from_opt empty_part (payload mdata) in
  let hs := get_headers pl in
  let st := scan_headers hs in
  b <- extract_body_from_payload get_text pl ;;
  Ok {| e_id := ref_id m; e_subject := fst st; e_sender := snd st;
        e_body := b; e_snippet := from_opt [] (snippet mdata) |}.

(** The Gmail client: each [execute()] may raise and may change the state
    of the mailbox and of the connection. *)
Variable World : Type.
Variable messages_list : Z -> World -> result ListResponse * World.
Variable messages_get : str -> World -> result MessageData * World.

Definition IO (A : Type) : Type := World -> result A * World.

Definition io_ret {A} (a : A) : IO A := fun w => (Ok a, w).

Definition io_bind {A B} (m : IO A) (k : A -> IO B) : IO B :=
  fun w =>
    match m w with
    | (Ok a, w') => k a w'
    | (Raise e, w') => (Raise e, w')
    end.

Definition io_lift {A} (r : result A) : IO A := fun w => (r, w).

Fixpoint fetch_loop (msgs : list MessageRef) (results : list Email)
  : IO (list Email) :=
  match msgs with
  | [] => io_ret results
  | m :: rest =>
      io_bind (messages_get (ref_id m)) (fun mdata =>
      io_bind (io_lift (assemble m mdata)) (fun email =>
      fetch_loop rest (results ++ [email])))
  end.

Definition fetch_unread_emails (max_results : Z) : IO (list Email) :=
  io_bind (messages_list max_results) (fun resp =>
  fetch_loop (from_opt [] (messages resp)) []).

End Fetcher.

(** * Notions used in the statements *)

(** ** Octets, ASCII and the base64 alphabet *)

Definition octet (b : Z) : Prop := 0 <= b < 256.

Definition in_range (lo hi x : Z) : bool := (lo <=? x) && (x <? hi).

(** The character written for a sextet, as the decoder sees it after its
    own translation. *)
Definition wire (v : Z) : Z :=
  Base64.urlsafe_decode_translation
    (Base64.urlsafe_encode_translation (Base64.table_b2a v)).

(** The sextets of a group of input octets. *)
Definition sx0 (b0 : Z) : Z := Z.shiftr b0 2.
Definition sx1 (b0 b1 : Z) : Z := Z.lor (Z.shiftl (Z.land b0 3) 4) (Z.shiftr b1 4).
Definition sx2 (b1 b2 : Z) : Z := Z.lor (Z.shiftl (Z.land b1 0x0F) 2) (Z.shiftr b2 6).
Definition sx3 (b2 : Z) : Z := Z.land b2 0x3F.

Definition ascii_cp (c : Z) : Prop := 0 <= c < 128.

(** The characters that [urlsafe_b64decode] reads as data: the URL-safe
    alphabet, and the two characters [+] and [/] of the standard one. *)
Definition is_data_char (c : Z) : bool :=
  in_range 65 91 c || in_range 97 123 c || in_range 48 58 c
  || (c =? 45) || (c =? 95) || (c =? 43) || (c =? 47).

Definition data_chars (d : str) : Z :=
  Z.of_nat (List.length (filter is_data_char d)).

(** The characters that the decoding loop does not skip. *)
Definition keeps (c : Z) : bool := is_data_char c || (c =? Base64.PAD).

(** [s] holds a [=] such that the number [n] of data characters before it
    satisfies [P n] and what follows it satisfies [R]. *)
Definition pad_then (P : Z -> Prop) (R : str -> Prop) (s : str) : Prop :=
  exists pre rest,
    s = pre ++ Base64.PAD :: rest /\ P (data_chars pre) /\ R rest.

Definition anything (s : str) : Prop := True.

(** The payload ends a quad: its data characters are a multiple of four;
    or a [=] comes after 4k+3 of them; or two [=], with no data character
    between them, come after 4k+2 of them. *)
Definition quad_complete (d : str) : Prop :=
  data_chars d mod 4 = 0 \/
  pad_then (fun n => n mod 4 = 3) anything d \/
  pad_then (fun n => n mod 4 = 2) (pad_then (fun n => n = 0) anything) d.

(** The same, seen from inside a quad: [q] data characters and [p] pads of
    the quad have been read. *)
Definition complete_from (q p : Z) (s : str) : Prop :=
  (q + data_chars s) mod 4 = 0 \/
  pad_then (fun n => (q + n) mod 4 = 3) anything s \/
  pad_then (fun n => (q + n) mod 4 = 2) (pad_then (fun n => n = 0) anything) s \/
  (q = 2 /\ p = 1 /\ pad_then (fun n => n = 0) anything s).

(** ** Traversal orders and buckets *)

(** The parts that the two loops reach, in the order they reach them: each
    part of the payload, followed at once by its own sub-parts. *)
Definition visited (parts : list MessagePart) : list MessagePart :=
  flat_map (fun p => p :: get_parts p) parts.

(** Breadth-first order over the same two levels. *)
Definition level_order (parts : list MessagePart) : list MessagePart :=
  parts ++ flat_map get_parts parts.

(** A part that carries data and whose MIME type is exactly [mime]. *)
Definition wanted (mime : str) (p : MessagePart) : bool :=
  truthy (get_data p) && str_eqb (get_mime p) mime.

(** [texts] are the decoded payloads of [ps], in the same order. *)
Definition decoded_from (ps : list MessagePart) (texts : list str) : Prop :=
  Forall2 (fun p t => _decode_part (get_data p) = Ok t) ps texts.

(** Sample parts: a leaf with data, a part with data and sub-parts, and a
    multipart container without data. *)
Definition leaf (mime : str) (d : string) : MessagePart :=
  MkPart (Some mime) (Some {| data := Some (lit d) |}) None None.

Definition node (mime : str) (d : string) (subs : list MessagePart)
  : MessagePart :=
  MkPart (Some mime) (Some {| data := Some (lit d) |}) (Some subs) None.

Definition container (subs : list MessagePart) : MessagePart :=
  MkPart (Some (lit "multipart/mixed")) (Some {| data := None |})
         (Some subs) None.

(** A part without its sub-parts, and a payload cut below the second level
    under the root. *)
Definition cut (p : MessagePart) : MessagePart :=
  match p with MkPart m b _ hs => MkPart m b None hs end.

Definition cut_below (k : MessagePart -> MessagePart) (p : MessagePart)
  : MessagePart :=
  match p with MkPart m b ps hs => MkPart m b (option_map (map k) ps) hs end.

Definition prune (root : MessagePart) : MessagePart :=
  cut_below (cut_below cut) root.

Definition falsy (p : MessagePart) : Prop := truthy (get_data p) = false.

Definition nested_sample : list MessagePart :=
  [node text_plain "YQ==" [leaf text_plain "Yg=="]; leaf text_plain "Yw=="].

(** A part whose data field holds the empty string, with one sub-part. *)
Definition empty_data_sample : MessagePart :=
  MkPart (Some text_plain) (Some {| data := Some [] |})
         (Some [leaf text_html "b25l"]) None.

(** ** Header names *)

(** Equality of header names up to the case of ASCII letters. *)
Definition caseless_eq (a b : str) : Prop :=
  Forall2 (fun x y => ascii_lower_cp x = ascii_lower_cp y) a b.

Definition named (key : string) (h : Header) : Prop :=
  caseless_eq (from_opt [] (name h)) (lit key).

(** Header field names are ASCII (RFC 5322). *)
Definition ascii_name (h : Header) : Prop :=
  Forall ascii_cp (from_opt [] (name h)).

(** ** A sample mailbox *)

Definition header (n v : string) : Header :=
  {| name := Some (lit n); value := Some (lit v) |}.

Definition invoice_message (hs : list Header) (preview : str) : MessageData :=
  {| payload :=
       Some (MkPart (Some text_plain)
               (Some {| data := Some (lit "UGxlYXNlIHBheSAkNTAwIGJ5IEZyaWRheS4=") |})
               None (Some hs));
     snippet := Some preview |}.

Definition repeated_headers : list Header :=
  [header "Subject" "old"; header "SUBJECT" "new"; header "from" "me"].

Definition invoice_headers : list Header :=
  [header "Subject" "Q3 Invoice"; header "From" "billing@acme.test"].

(** A mailbox with three unread messages; its state counts the requests. *)
Definition three_unread (max_results : Z) (w : nat)
  : result ListResponse * nat :=
  (Ok {| messages := Some [ {| ref_id := lit "m1" |}; {| ref_id := lit "m2" |};
                            {| ref_id := lit "m3" |} ] |}, S w).

Definition get_invoice (id : str) (w : nat) : result MessageData * nat :=
  (Ok (invoice_message invoice_headers id), S w).

Definition same : str -> str := fun s => s.

(** A stripper that returns its input. *)
Definition plain_text : str -> result str := fun s => Ok s.

(** * The analyzer: [analyze_email] (main.py, lines 152-165) *)

(** [str.isspace] for one character ([Py_UNICODE_ISSPACE]). *)
Definition isspace (c : Z) : bool :=
  in_range 0x09 0x0E c || in_range 0x1C 0x21 c
  || (c =? 0x85) || (c =? 0xA0) || (c =? 0x1680)
  || in_range 0x2000 0x200B c || (c =? 0x2028) || (c =? 0x2029)
  || (c =? 0x202F) || (c =? 0x205F) || (c =? 0x3000).

Fixpoint lstrip (s : str) : str :=
  match s with
  | [] => []
  | c :: rest => if isspace c then lstrip rest else s
  end.

(** [s.strip()]: the slice between the first and the last character that
    is not white space. *)
Definition strip (s : str) : str := rev (lstrip (rev (lstrip s))).

(** The f-string of line 153. *)
Definition email_text (email : Email) : str :=
  lit "Subject: " ++ e_subject email ++ [10] ++ lit "From: "
  ++ e_sender email ++ [10; 10] ++ e_body email.

(** The dict returned by [analyze_email]. *)
Record Analysis : Type :=
  { a_subject : str; a_sender : str; a_summary : str; a_category : str;
    a_extracted : str }.

Section Analyzer.

(** The three [LLMChain.run] calls: each may raise and may change the
    state of the model server. *)
Variable World : Type.
Variable summary_run : str -> World -> result str * World.
Variable classify_run : str -> World -> result str * World.
Variable extract_run : str -> World -> result str * World.

Definition analyze_email (email : Email) : IO World Analysis :=
  let text := email_text email in
  io_bind World (summary_run text) (fun summary =>
  io_bind World (classify_run text) (fun category =>
  io_bind World (extract_run text) (fun extracted =>
  io_ret World
    {| a_subject := e_subject email; a_sender := e_sender email;
       a_summary := strip summary; a_category := strip category;
       a_extracted := strip extracted |}))).

End Analyzer.

(** * Notions used in the further properties *)

(** A part whose data one of the loops decodes. *)
Definition relevant (p : MessagePart) : bool :=
  wanted text_plain p || wanted text_html p.

(** The values that the header loop assigns for the key [key], in order. *)
Definition assigned (unicode_lower : str -> str) (key : string)
  (hs : list Header) : list str :=
  flat_map (fun h =>
    if str_eqb (lower unicode_lower (from_opt [] (name h))) (lit key)
    then match value h with Some v => [v] | None => [] end
    else []) hs.

(** A Gmail client that answers from a fixed table and records, as its
    state, the identifiers it was asked for. *)
Definition recording_list (resp : result ListResponse)
  (max_results : Z) (log : list str) : result ListResponse * list str :=
  (resp, log).

Definition recording_get (table : str -> result MessageData)
  (id : str) (log : list str) : result MessageData * list str :=
  (table id, log ++ [id]).

(** The listed identifiers up to and including the first one whose
    retrieval or assembly raises. *)
Fixpoint requested (ok : MessageRef -> bool) (msgs : list MessageRef)
  : list str :=
  match msgs with
  | [] => []
  | m :: rest => ref_id m :: (if ok m then requested ok rest else [])
  end.

Definition no_line_feed (s : str) : Prop := ~ In 10 s.

(** The data of the part decodes without an exception. *)
Definition decodes (p : MessagePart) : Prop :=
  exists t, _decode_part (get_data p) = Ok t.

(** Under the recording client: the message is retrieved and assembled
    without an exception. *)
Definition assembles (get_text : str -> result str)
  (unicode_lower : str -> str)
  (table : str -> result MessageData) (m : MessageRef) : bool :=
  match table (ref_id m) with
  | Ok mdata =>
      match assemble get_text unicode_lower m mdata with
      | Ok _ => true
      | Raise _ => false
      end
  | Raise _ => false
  end.

(** A table in which the second of three messages cannot be retrieved. *)
Definition three_refs : list MessageRef :=
  [ {| ref_id := lit "m1" |}; {| ref_id := lit "m2" |}; {| ref_id := lit "m3" |} ].

Definition flaky_table (id : str) : result MessageData :=
  if str_eqb id (lit "m2") then Raise (ServiceError 503)
  else Ok (invoice_message invoice_headers id).

(** A chain that answers with a fixed text, padded with white space, and
    counts its calls. *)
Definition canned_chain (answer : string) (text : str) (calls : nat)
  : result str * nat :=
  (Ok ([32; 10] ++ lit answer ++ [32; 0xA0; 10]), S calls).

Definition invoice_email : Email :=
  {| e_id := lit "m1"; e_subject := lit "Q3 Invoice";
     e_sender := lit "billing@acme.test";
     e_body := lit "Please pay $500 by Friday."; e_snippet := lit "Please" |}.

(** No white space at either end. *)
Definition trimmed (s : str) : Prop :=
  (forall c rest, s = c :: rest -> isspace c = false) /\
  (forall c rest, s = rest ++ [c] -> isspace c = false).

(** [field] is [raw] without the white space at its ends. *)
Definition stripped_of (raw field : str) : Prop :=
  exists pre post,
    raw = pre ++ field ++ post /\
    forallb isspace pre = true /\ forallb isspace post = true /\
    trimmed field.

(** * Properties *)

(** ** Proof steps *)

Ltac plain t :=
  lazymatch t with
  | context [if _ then _ else _] => fail
  | _ => idtac
  end.

Ltac decide_tests :=
  repeat match goal with
  | |- context [?a <? ?b] =>
      plain a; plain b; destruct (Z.ltb_spec a b); try lia
  | |- context [?a <=? ?b] =>
      plain a; plain b; destruct (Z.leb_spec a b); try lia
  | |- context [?a =? ?b] =>
      plain a; plain b; destruct (Z.eqb_spec a b); try lia
  end.

Ltac zlia := Z.to_euclidean_division_equations; lia.

Ltac decided := repeat (decide_tests; cbn [negb andb orb]).

(** ** Arithmetic reading of the bit operations *)

Lemma forall_below_spec (n : nat) (P : Z -> bool) :
  forall_below n P = true ->
  forall z, 0 <= z < Z.of_nat n -> P z = true.
Proof.
  induction n as [|k IH]; intros H z Hz.
  - simpl in Hz. lia.
  - simpl in H. apply andb_true_iff in H as [Hk Hrest].
    destruct (Z.eq_dec z (Z.of_nat k)) as [->|Hne]; [exact Hk|].
    apply IH; [exact Hrest | lia].
Qed.

Lemma shiftr_div (a n : Z) : 0 <= n -> Z.shiftr a n = a / 2 ^ n.
Proof. intros. apply Z.shiftr_div_pow2. assumption. Qed.

Lemma shiftl_mul (a n : Z) : 0 <= n -> Z.shiftl a n = a * 2 ^ n.
Proof. intros. apply Z.shiftl_mul_pow2. assumption. Qed.

Lemma land_3F (a : Z) : Z.land a 0x3F = a mod 64.
Proof. change 0x3F with (Z.ones 6). rewrite Z.land_ones by lia. reflexivity. Qed.

Lemma lor_add_below (hi : Z) (n : nat) :
  forall_below n (fun x => Z.lor hi x =? hi + x) = true ->
  forall x, 0 <= x < Z.of_nat n -> Z.lor hi x = hi + x.
Proof.
  intros H x Hx. apply Z.eqb_eq.
  exact (forall_below_spec n (fun x => Z.lor hi x =? hi + x) H x Hx).
Qed.

Lemma lor_80 x : 0 <= x < 64 -> Z.lor 0x80 x = 0x80 + x.
Proof. apply (lor_add_below 0x80 64). vm_compute. reflexivity. Qed.

Lemma lor_C0 x : 0 <= x < 32 -> Z.lor 0xC0 x = 0xC0 + x.
Proof. apply (lor_add_below 0xC0 32). vm_compute. reflexivity. Qed.

Lemma lor_E0 x : 0 <= x < 16 -> Z.lor 0xE0 x = 0xE0 + x.
Proof. apply (lor_add_below 0xE0 16). vm_compute. reflexivity. Qed.

Lemma lor_F0 x : 0 <= x < 8 -> Z.lor 0xF0 x = 0xF0 + x.
Proof. apply (lor_add_below 0xF0 8). vm_compute. reflexivity. Qed.

(** ** UTF-8: decoding inverts encoding *)

Lemma decode_1 b0 rest :
  0 <= b0 < 0x80 ->
  Utf8.decode_ignore (b0 :: rest) = b0 :: Utf8.decode_ignore rest.
Proof.
  intros H. cbn [Utf8.decode_ignore]. decide_tests. reflexivity.
Qed.

Lemma decode_2 b0 b1 rest :
  0xC2 <= b0 < 0xE0 -> 0x80 <= b1 < 0xC0 ->
  Utf8.decode_ignore (b0 :: b1 :: rest)
  = (b0 * 64 + b1 - 0x3080) :: Utf8.decode_ignore rest.
Proof.
  intros H0 H1. cbn [Utf8.decode_ignore]. unfold Utf8.is_continuation.
  rewrite !shiftl_mul by lia.
  decide_tests. cbn [negb andb orb]. f_equal.
Qed.

Lemma decode_3 b0 b1 b2 rest :
  0xE0 <= b0 < 0xF0 -> 0x80 <= b1 < 0xC0 -> 0x80 <= b2 < 0xC0 ->
  (b0 = 0xE0 -> 0xA0 <= b1) -> (b0 = 0xED -> b1 < 0xA0) ->
  Utf8.decode_ignore (b0 :: b1 :: b2 :: rest)
  = (b0 * 4096 + b1 * 64 + b2 - 0xE2080) :: Utf8.decode_ignore rest.
Proof.
  intros H0 H1 H2 Hlow Hsur. cbn [Utf8.decode_ignore]. unfold Utf8.is_continuation.
  rewrite !shiftl_mul by lia.
  decide_tests; cbn [negb andb orb]; f_equal.
Qed.

Lemma decode_4 b0 b1 b2 b3 rest :
  0xF0 <= b0 < 0xF5 -> 0x80 <= b1 < 0xC0 -> 0x80 <= b2 < 0xC0 ->
  0x80 <= b3 < 0xC0 ->
  (b0 = 0xF0 -> 0x90 <= b1) -> (b0 = 0xF4 -> b1 < 0x90) ->
  Utf8.decode_ignore (b0 :: b1 :: b2 :: b3 :: rest)
  = (b0 * 262144 + b1 * 4096 + b2 * 64 + b3 - 0x3C82080)
      :: Utf8.decode_ignore rest.
Proof.
  intros H0 H1 H2 H3 Hlow Hhigh. cbn [Utf8.decode_ignore].
  unfold Utf8.is_continuation. rewrite !shiftl_mul by lia.
  decide_tests; cbn [negb andb orb]; f_equal.
Qed.

Lemma encode_cp_decode ch :
  Utf8.scalar ch ->
  exists b, Utf8.encode_cp ch = Ok b /\ Forall octet b /\ b <> [] /\
    forall rest, Utf8.decode_ignore (b ++ rest) = ch :: Utf8.decode_ignore rest.
Proof.
  intros [Hrange Hsur]. unfold Utf8.encode_cp. rewrite Hsur.
  unfold Utf8.is_surrogate in Hsur. apply andb_false_iff in Hsur.
  rewrite Z.leb_gt, Z.leb_gt in Hsur.
  destruct (Z.ltb_spec ch 0x80) as [H1|H1].
  { eexists; split; [reflexivity|]. unfold octet.
    repeat split; [repeat constructor; lia | discriminate |].
    intros rest. apply decode_1. lia. }
  rewrite !land_3F, !shiftr_div by lia.
  change (2 ^ 6) with 64. change (2 ^ 12) with 4096.
  change (2 ^ 18) with 262144.
  destruct (Z.ltb_spec ch 0x800) as [H2|H2].
  { eexists; split; [reflexivity|].
    rewrite lor_C0, lor_80 by zlia. unfold octet.
    repeat split; [repeat constructor; zlia | discriminate |].
    intros rest. cbn [app]. rewrite decode_2 by zlia. f_equal. zlia. }
  destruct (Z.ltb_spec ch 0x10000) as [H3|H3].
  { eexists; split; [reflexivity|].
    rewrite lor_E0, !lor_80 by zlia. unfold octet.
    repeat split; [repeat constructor; zlia | discriminate |].
    intros rest. cbn [app]. rewrite decode_3 by zlia. f_equal. zlia. }
  eexists; split; [reflexivity|].
  rewrite lor_F0, !lor_80 by zlia. unfold octet.
  repeat split; [repeat constructor; zlia | discriminate |].
  intros rest. cbn [app]. rewrite decode_4 by zlia. f_equal. zlia.
Qed.

Lemma encode_decode (s : str) :
  Forall Utf8.scalar s ->
  exists raw, Utf8.encode s = Ok raw /\ Forall octet raw /\
    (raw = [] -> s = []) /\ Utf8.decode_ignore raw = s.
Proof.
  induction 1 as [|ch rest Hch _ IH].
  - exists []. repeat split; try constructor.
  - destruct (encode_cp_decode ch Hch) as (b & Hb & Hoct & Hne & Hdec).
    destruct IH as (raw & Hraw & Horaw & _ & Hdraw).
    exists (b ++ raw). cbn [Utf8.encode]. rewrite Hb, Hraw. cbn [bind].
    repeat split.
    + apply Forall_app. split; assumption.
    + intros Hnil. apply app_eq_nil in Hnil. tauto.
    + rewrite Hdec, Hdraw. reflexivity.
Qed.

(** ** Base64: decoding inverts encoding *)

Lemma check_octet (P : Z -> bool) :
  forall_below 256 P = true -> forall b, octet b -> P b = true.
Proof. intros H b Hb. apply (forall_below_spec 256 P H). exact Hb. Qed.

Lemma check_octets (P : Z -> Z -> bool) :
  forall_below 256 (fun a => forall_below 256 (P a)) = true ->
  forall a b, octet a -> octet b -> P a b = true.
Proof.
  intros H a b Ha Hb.
  apply (check_octet (P a)); [|exact Hb].
  exact (check_octet (fun a => forall_below 256 (P a)) H a Ha).
Qed.

Lemma in_range_spec lo hi x : in_range lo hi x = true -> lo <= x < hi.
Proof. unfold in_range. rewrite andb_true_iff, Z.leb_le, Z.ltb_lt. tauto. Qed.

Lemma wire_value v :
  0 <= v < 64 ->
  (wire v =? Base64.PAD) = false /\ Base64.table_a2b (wire v) = v.
Proof.
  intros Hv.
  assert (H : (negb (wire v =? Base64.PAD)
               && (Base64.table_a2b (wire v) =? v)) = true).
  { apply (forall_below_spec 64
      (fun v => negb (wire v =? Base64.PAD) && (Base64.table_a2b (wire v) =? v)));
      [vm_compute; reflexivity | exact Hv]. }
  apply andb_true_iff in H as [H1 H2].
  apply negb_true_iff in H1. apply Z.eqb_eq in H2. split; assumption.
Qed.

Lemma a2b_loop_data v rest q l p out :
  0 <= v < 64 ->
  Base64.a2b_loop (wire v :: rest) q l p out =
    if q =? 0 then Base64.a2b_loop rest 1 v 0 out
    else if q =? 1 then
      Base64.a2b_loop rest 2 (Z.land v 0x0F) 0
        (out ++ [Z.land (Z.lor (Z.shiftl l 2) (Z.shiftr v 4)) 0xFF])
    else if q =? 2 then
      Base64.a2b_loop rest 3 (Z.land v 0x03) 0
        (out ++ [Z.land (Z.lor (Z.shiftl l 4) (Z.shiftr v 2)) 0xFF])
    else
      Base64.a2b_loop rest 0 0 0
        (out ++ [Z.land (Z.lor (Z.shiftl l 6) v) 0xFF]).
Proof.
  intros Hv. destruct (wire_value v Hv) as [Hpad Hval].
  cbn [Base64.a2b_loop]. rewrite Hpad. cbv zeta. rewrite Hval.
  destruct (Z.leb_spec 64 v); [lia | reflexivity].
Qed.

Lemma sextets_1 b :
  octet b ->
  0 <= sx0 b < 64 /\ 0 <= sx3 b < 64 /\
  0 <= Z.shiftl (Z.land b 3) 4 < 64 /\ 0 <= Z.shiftl (Z.land b 0x0F) 2 < 64 /\
  Z.land (Z.lor (Z.shiftl (sx0 b) 2) (Z.shiftr (Z.shiftl (Z.land b 3) 4) 4)) 0xFF = b /\
  Z.land (Z.lor (Z.shiftl (Z.shiftr b 4) 4) (Z.land b 0x0F)) 0xFF = b /\
  Z.land (Z.lor (Z.shiftl (Z.shiftr b 4) 4)
                (Z.shiftr (Z.shiftl (Z.land b 0x0F) 2) 2)) 0xFF = b /\
  Z.land (Z.lor (Z.shiftl (Z.shiftr b 6) 6) (sx3 b)) 0xFF = b.
Proof.
  intros Hb.
  pose (P := fun b =>
    in_range 0 64 (sx0 b) && in_range 0 64 (sx3 b)
    && in_range 0 64 (Z.shiftl (Z.land b 3) 4)
    && in_range 0 64 (Z.shiftl (Z.land b 0x0F) 2)
    && (Z.land (Z.lor (Z.shiftl (sx0 b) 2)
                 (Z.shiftr (Z.shiftl (Z.land b 3) 4) 4)) 0xFF =? b)
    && (Z.land (Z.lor (Z.shiftl (Z.shiftr b 4) 4) (Z.land b 0x0F)) 0xFF =? b)
    && (Z.land (Z.lor (Z.shiftl (Z.shiftr b 4) 4)
                 (Z.shiftr (Z.shiftl (Z.land b 0x0F) 2) 2)) 0xFF =? b)
    && (Z.land (Z.lor (Z.shiftl (Z.shiftr b 6) 6) (sx3 b)) 0xFF =? b)).
  assert (H : P b = true)
    by (apply check_octet; [vm_compute; reflexivity | exact Hb]).
  unfold P in H. rewrite !andb_true_iff, !Z.eqb_eq in H.
  repeat match type of H with _ /\ _ => destruct H as [H ?] end.
  repeat match goal with
  | R : in_range _ _ _ = true |- _ => apply in_range_spec in R
  end.
  tauto.
Qed.

Lemma sextets_2 a b :
  octet a -> octet b ->
  0 <= sx1 a b < 64 /\ 0 <= sx2 a b < 64 /\
  Z.land (Z.lor (Z.shiftl (sx0 a) 2) (Z.shiftr (sx1 a b) 4)) 0xFF = a /\
  Z.land (sx1 a b) 0x0F = Z.shiftr b 4 /\
  Z.shiftr (sx2 a b) 2 = Z.land a 0x0F /\
  Z.land (sx2 a b) 0x03 = Z.shiftr b 6.
Proof.
  intros Ha Hb.
  pose (P := fun a b =>
    in_range 0 64 (sx1 a b) && in_range 0 64 (sx2 a b)
    && (Z.land (Z.lor (Z.shiftl (sx0 a) 2) (Z.shiftr (sx1 a b) 4)) 0xFF =? a)
    && (Z.land (sx1 a b) 0x0F =? Z.shiftr b 4)
    && (Z.shiftr (sx2 a b) 2 =? Z.land a 0x0F)
    && (Z.land (sx2 a b) 0x03 =? Z.shiftr b 6)).
  assert (H : P a b = true)
    by (apply check_octets; [vm_compute; reflexivity | exact Ha | exact Hb]).
  unfold P in H. rewrite !andb_true_iff, !Z.eqb_eq in H.
  repeat match type of H with _ /\ _ => destruct H as [H ?] end.
  repeat match goal with
  | R : in_range _ _ _ = true |- _ => apply in_range_spec in R
  end.
  tauto.
Qed.

Lemma list_ind3 {A} (P : list A -> Prop) :
  P [] -> (forall a, P [a]) -> (forall a b, P [a; b]) ->
  (forall a b c l, P l -> P (a :: b :: c :: l)) ->
  forall l, P l.
Proof.
  intros H0 H1 H2 H3.
  refine (fix go (l : list A) : P l :=
    match l with
    | [] => H0
    | [a] => H1 a
    | [a; b] => H2 a b
    | a :: b :: c :: rest => H3 a b c rest (go rest)
    end).
Qed.

Lemma a2b_loop_encoded (bs : bytes) :
  Forall octet bs ->
  forall out,
    Base64.a2b_loop
      (map Base64.urlsafe_decode_translation (Base64.urlsafe_b64encode bs))
      0 0 0 out
    = Ok (out ++ bs).
Proof.
  unfold Base64.urlsafe_b64encode. rewrite map_map.
  induction bs as [|b0|b0 b1|b0 b1 b2 rest IH] using list_ind3; intros Hoct out.
  - cbn. rewrite app_nil_r. reflexivity.
  - inversion Hoct as [|? ? H0 _]; subst.
    destruct (sextets_1 b0 H0) as (R0 & _ & R1 & _ & I & _).
    cbn [Base64.b2a_base64 map]. fold (wire (Z.shiftr b0 2)).
    fold (wire (Z.shiftl (Z.land b0 3) 4)). fold (sx0 b0).
    rewrite !a2b_loop_data by assumption. cbn [Z.eqb Pos.eqb].
    rewrite I. reflexivity.
  - inversion Hoct as [|? ? H0 Hoct']; subst.
    inversion Hoct' as [|? ? H1 _]; subst.
    destruct (sextets_1 b0 H0) as (R0 & _).
    destruct (sextets_1 b1 H1) as (_ & _ & _ & R2 & _ & _ & I2 & _).
    destruct (sextets_2 b0 b1 H0 H1) as (R1 & _ & I1 & A & _).
    cbn [Base64.b2a_base64 map]. fold (sx0 b0). fold (sx1 b0 b1).
    fold (wire (sx0 b0)). fold (wire (sx1 b0 b1)).
    fold (wire (Z.shiftl (Z.land b1 15) 2)).
    rewrite !a2b_loop_data by assumption. cbn [Z.eqb Pos.eqb].
    rewrite I1, A, I2, <- app_assoc. reflexivity.
  - inversion Hoct as [|? ? H0 Hoct1]; subst.
    inversion Hoct1 as [|? ? H1 Hoct2]; subst.
    inversion Hoct2 as [|? ? H2 Hrest]; subst.
    destruct (sextets_1 b0 H0) as (R0 & _).
    destruct (sextets_1 b1 H1) as (_ & _ & _ & _ & _ & I2 & _).
    destruct (sextets_1 b2 H2) as (_ & R3 & _ & _ & _ & _ & _ & I3).
    destruct (sextets_2 b0 b1 H0 H1) as (R1 & _ & I1 & A & _).
    destruct (sextets_2 b1 b2 H1 H2) as (_ & R2 & _ & _ & B & D).
    cbn [Base64.b2a_base64 map]. fold (sx0 b0). fold (sx1 b0 b1).
    fold (sx2 b1 b2). fold (sx3 b2).
    fold (wire (sx0 b0)). fold (wire (sx1 b0 b1)).
    fold (wire (sx2 b1 b2)). fold (wire (sx3 b2)).
    rewrite !a2b_loop_data by assumption. cbn [Z.eqb Pos.eqb].
    rewrite I1, A, B, I2, D, I3. rewrite IH by assumption.
    rewrite <- !app_assoc. reflexivity.
Qed.

Lemma encode_ascii (d : str) : Forall ascii_cp d -> Utf8.encode d = Ok d.
Proof.
  induction 1 as [|c rest Hc _ IH]; [reflexivity|].
  cbn [Utf8.encode]. unfold Utf8.encode_cp. unfold ascii_cp in Hc.
  destruct (Z.ltb_spec c 0x80); [|lia].
  rewrite IH. reflexivity.
Qed.

Lemma letter_ascii v :
  0 <= v < 64 ->
  ascii_cp (Base64.urlsafe_encode_translation (Base64.table_b2a v)).
Proof.
  intros Hv. apply in_range_spec.
  apply (forall_below_spec 64
    (fun v => in_range 0 128
       (Base64.urlsafe_encode_translation (Base64.table_b2a v))));
    [vm_compute; reflexivity | exact Hv].
Qed.

Lemma urlsafe_b64encode_ascii (bs : bytes) :
  Forall octet bs -> Forall ascii_cp (Base64.urlsafe_b64encode bs).
Proof.
  assert (Hpad : ascii_cp (Base64.urlsafe_encode_translation Base64.PAD))
    by (vm_compute; split; congruence).
  unfold Base64.urlsafe_b64encode.
  induction bs as [|b0|b0 b1|b0 b1 b2 rest IH] using list_ind3; intros Hoct.
  - constructor.
  - inversion Hoct as [|? ? H0 _]; subst.
    destruct (sextets_1 b0 H0) as (R0 & _ & R1 & _).
    cbn [Base64.b2a_base64 map].
    repeat (apply Forall_cons;
            [first [exact Hpad | apply letter_ascii; assumption]|]).
    apply Forall_nil.
  - inversion Hoct as [|? ? H0 Hoct']; subst.
    inversion Hoct' as [|? ? H1 _]; subst.
    destruct (sextets_1 b0 H0) as (R0 & _).
    destruct (sextets_1 b1 H1) as (_ & _ & _ & R2 & _).
    destruct (sextets_2 b0 b1 H0 H1) as (R1 & _).
    cbn [Base64.b2a_base64 map].
    repeat (apply Forall_cons;
            [first [exact Hpad | apply letter_ascii; assumption]|]).
    apply Forall_nil.
  - inversion Hoct as [|? ? H0 Hoct1]; subst.
    inversion Hoct1 as [|? ? H1 Hoct2]; subst.
    inversion Hoct2 as [|? ? H2 Hrest]; subst.
    destruct (sextets_1 b0 H0) as (R0 & _).
    destruct (sextets_1 b2 H2) as (_ & R3 & _).
    destruct (sextets_2 b0 b1 H0 H1) as (R1 & _).
    destruct (sextets_2 b1 b2 H1 H2) as (_ & R2 & _).
    cbn [Base64.b2a_base64 map].
    repeat (apply Forall_cons; [apply letter_ascii; assumption|]).
    apply IH. assumption.
Qed.

Lemma urlsafe_b64encode_nil (bs : bytes) :
  Base64.urlsafe_b64encode bs = [] -> bs = [].
Proof.
  destruct bs as [|b0 [|b1 [|b2 rest]]]; [reflexivity | discriminate ..].
Qed.

(** C6.  For every string [s] of Unicode scalar values, [s.encode("utf-8")]
    succeeds, and [_decode_part] applied to the URL-safe base64 encoding
    (RFC 4648, padded) of those bytes returns [s]: decoding is a left
    inverse of encoding. *)
Theorem decode_part_left_inverse (s : str) :
  Forall Utf8.scalar s ->
  exists raw,
    Utf8.encode s = Ok raw /\
    _decode_part (Some (ascii_str (Base64.urlsafe_b64encode raw))) = Ok s.
Proof.
  intros Hs.
  destruct (encode_decode s Hs) as (raw & Henc & Hoct & Hnil & Hdec).
  exists raw. split; [exact Henc|].
  unfold _decode_part, ascii_str.
  destruct (Base64.urlsafe_b64encode raw) as [|c cs] eqn:E.
  - cbn. apply urlsafe_b64encode_nil in E. rewrite (Hnil E). reflexivity.
  - cbn [truthy negb]. rewrite <- E.
    rewrite (encode_ascii _ (urlsafe_b64encode_ascii raw Hoct)).
    cbn [bind]. unfold Base64.urlsafe_b64decode, Base64.a2b_base64.
    rewrite (a2b_loop_encoded raw Hoct []). cbn [bind app].
    rewrite Hdec. reflexivity.
Qed.

Lemma decode_part_left_inverse_witness :
  exists raw,
    Utf8.encode [72; 0xE9; 0x20AC; 0x1F600] = Ok raw /\
    _decode_part (Some (ascii_str (Base64.urlsafe_b64encode raw)))
    = Ok [72; 0xE9; 0x20AC; 0x1F600].
Proof.
  apply (decode_part_left_inverse [72; 0xE9; 0x20AC; 0x1F600]).
  repeat constructor; vm_compute; congruence.
Defined.

(** ** PartDecoder: what malformed input does *)

Lemma is_data_char_table (c : Z) :
  (64 <=? Base64.table_a2b (Base64.urlsafe_decode_translation c))
  = negb (is_data_char c).
Proof.
  unfold is_data_char, in_range, Base64.table_a2b,
    Base64.urlsafe_decode_translation.
  decide_tests; cbn [andb orb negb]; decide_tests; reflexivity.
Qed.

Lemma a2b_loop_unpadded (s : bytes) :
  Forall (fun c => c <> Base64.PAD) s ->
  forall q l p out, 0 <= q < 4 ->
    ((q + data_chars s) mod 4 = 0 ->
       exists decoded,
         Base64.a2b_loop (map Base64.urlsafe_decode_translation s) q l p out
         = Ok decoded) /\
    ((q + data_chars s) mod 4 <> 0 ->
       Base64.a2b_loop (map Base64.urlsafe_decode_translation s) q l p out
       = Raise binascii_Error).
Proof.
  unfold data_chars.
  induction 1 as [|c rest Hc _ IH]; intros q l p out Hq.
  - cbn [map Base64.a2b_loop filter List.length Z.of_nat].
    rewrite Z.add_0_r, (Z.mod_small q 4) by lia.
    destruct (Z.eqb_spec q 0); split; intros; try lia; eauto.
  - cbn [map Base64.a2b_loop filter].
    assert (Hnp : (Base64.urlsafe_decode_translation c =? Base64.PAD) = false).
    { unfold Base64.urlsafe_decode_translation, Base64.PAD in *.
      decide_tests. }
    rewrite Hnp. cbv zeta. rewrite is_data_char_table.
    destruct (is_data_char c); cbn [negb].
    + cbn [List.length]. rewrite Nat2Z.inj_succ.
      destruct (Z.eqb_spec q 0) as [->|H0].
      { specialize (IH 1 (Base64.table_a2b (Base64.urlsafe_decode_translation c))
                       0 out ltac:(lia)).
        replace (0 + Z.succ (Z.of_nat (List.length (filter is_data_char rest))))
          with (1 + Z.of_nat (List.length (filter is_data_char rest))) by lia.
        exact IH. }
      destruct (Z.eqb_spec q 1) as [->|H1].
      { match goal with |- context [Base64.a2b_loop _ 2 ?l' 0 ?o'] =>
          specialize (IH 2 l' 0 o' ltac:(lia)) end.
        replace (1 + Z.succ (Z.of_nat (List.length (filter is_data_char rest))))
          with (2 + Z.of_nat (List.length (filter is_data_char rest))) by lia.
        exact IH. }
      destruct (Z.eqb_spec q 2) as [->|H2].
      { match goal with |- context [Base64.a2b_loop _ 3 ?l' 0 ?o'] =>
          specialize (IH 3 l' 0 o' ltac:(lia)) end.
        replace (2 + Z.succ (Z.of_nat (List.length (filter is_data_char rest))))
          with (3 + Z.of_nat (List.length (filter is_data_char rest))) by lia.
        exact IH. }
      assert (q = 3) by lia. subst q.
      match goal with |- context [Base64.a2b_loop _ 0 0 0 ?o'] =>
        specialize (IH 0 0 0 o' ltac:(lia)) end.
      replace ((3 + Z.succ (Z.of_nat (List.length (filter is_data_char rest)))) mod 4)
        with ((0 + Z.of_nat (List.length (filter is_data_char rest))) mod 4) by zlia.
      exact IH.
    + apply IH. exact Hq.
Qed.

Lemma translation_pad (c : Z) :
  (Base64.urlsafe_decode_translation c =? Base64.PAD) = (c =? Base64.PAD).
Proof.
  unfold Base64.urlsafe_decode_translation, Base64.PAD. decide_tests; reflexivity.
Qed.

Lemma a2b_loop_cons (c : Z) (s1 s2 : bytes) :
  (forall q l p out,
     Base64.a2b_loop s1 q l p out = Base64.a2b_loop s2 q l p out) ->
  forall q l p out,
    Base64.a2b_loop (c :: s1) q l p out = Base64.a2b_loop (c :: s2) q l p out.
Proof.
  intros H q l p out. cbn [Base64.a2b_loop]. cbv zeta.
  repeat match goal with
  | |- (if ?b then _ else _) = _ => destruct b
  end; first [apply H | reflexivity].
Qed.

Lemma a2b_loop_drop (c : Z) (s : bytes) :
  keeps c = false ->
  forall q l p out,
    Base64.a2b_loop (Base64.urlsafe_decode_translation c :: s) q l p out
    = Base64.a2b_loop s q l p out.
Proof.
  unfold keeps. intros Hk q l p out. apply orb_false_iff in Hk as [Hd Hp].
  cbn [Base64.a2b_loop]. rewrite translation_pad, Hp. cbv zeta.
  rewrite is_data_char_table, Hd. reflexivity.
Qed.

Lemma a2b_loop_skips (s : bytes) :
  forall q l p out,
    Base64.a2b_loop (map Base64.urlsafe_decode_translation s) q l p out
    = Base64.a2b_loop
        (map Base64.urlsafe_decode_translation (filter keeps s)) q l p out.
Proof.
  induction s as [|c rest IH]; intros q l p out; [reflexivity|].
  cbn [filter map]. destruct (keeps c) eqn:Hk.
  - cbn [map]. apply a2b_loop_cons. exact IH.
  - rewrite a2b_loop_drop by exact Hk. apply IH.
Qed.

Lemma keeps_ascii (c : Z) : keeps c = true -> is_ascii c = true.
Proof.
  unfold keeps, is_data_char, in_range, is_ascii, Base64.PAD.
  decide_tests; cbn [andb orb]; congruence.
Qed.

Lemma is_data_char_keeps (c : Z) : is_data_char c = true -> keeps c = true.
Proof. unfold keeps. intros ->. reflexivity. Qed.

Lemma filter_filter {A} (f g : A -> bool) (l : list A) :
  (forall x, f x = true -> g x = true) ->
  filter f (filter g l) = filter f l /\ filter g (filter f l) = filter f l.
Proof.
  intros Hfg. induction l as [|x l [IH1 IH2]]; [split; reflexivity|].
  cbn [filter]. destruct (f x) eqn:Hf.
  - rewrite (Hfg x Hf). cbn [filter]. rewrite Hf, (Hfg x Hf), IH1, IH2.
    split; reflexivity.
  - destruct (g x); cbn [filter]; rewrite ?Hf; split; assumption.
Qed.

Lemma encode_cp_cases ch :
  Utf8.scalar ch ->
  (is_ascii ch = true /\ Utf8.encode_cp ch = Ok [ch]) \/
  (is_ascii ch = false /\
   exists b, Utf8.encode_cp ch = Ok b /\ Forall (fun x => keeps x = false) b).
Proof.
  assert (Hhigh : forall x, 0x80 <= x -> keeps x = false).
  { intros x Hx. unfold keeps, is_data_char, in_range, Base64.PAD.
    decide_tests; reflexivity. }
  intros [Hrange Hsur]. unfold Utf8.encode_cp, is_ascii. rewrite Hsur.
  unfold Utf8.is_surrogate in Hsur. apply andb_false_iff in Hsur.
  rewrite Z.leb_gt, Z.leb_gt in Hsur.
  destruct (Z.ltb_spec ch 0x80) as [H1|H1].
  { left. destruct (Z.leb_spec 0 ch); [|lia]. destruct (Z.ltb_spec ch 128); [|lia].
    split; reflexivity. }
  right. split.
  { destruct (Z.ltb_spec ch 128); [lia|]. apply andb_false_r. }
  rewrite !land_3F, !shiftr_div by lia.
  change (2 ^ 6) with 64. change (2 ^ 12) with 4096.
  change (2 ^ 18) with 262144.
  destruct (Z.ltb_spec ch 0x800) as [H2|H2].
  { eexists; split; [reflexivity|]. rewrite lor_C0, lor_80 by zlia.
    repeat (apply Forall_cons; [apply Hhigh; zlia|]). apply Forall_nil. }
  destruct (Z.ltb_spec ch 0x10000) as [H3|H3].
  { eexists; split; [reflexivity|]. rewrite lor_E0, !lor_80 by zlia.
    repeat (apply Forall_cons; [apply Hhigh; zlia|]). apply Forall_nil. }
  eexists; split; [reflexivity|]. rewrite lor_F0, !lor_80 by zlia.
  repeat (apply Forall_cons; [apply Hhigh; zlia|]). apply Forall_nil.
Qed.

(** What the base64 loop sees of an encodable string: its ASCII characters. *)
Lemma a2b_loop_text (d : str) :
  Forall Utf8.scalar d ->
  exists raw,
    Utf8.encode d = Ok raw /\
    forall q l p out,
      Base64.a2b_loop (map Base64.urlsafe_decode_translation raw) q l p out
      = Base64.a2b_loop
          (map Base64.urlsafe_decode_translation (filter is_ascii d)) q l p out.
Proof.
  induction 1 as [|ch rest Hch _ (raw & Hraw & IH)].
  - exists []. split; reflexivity.
  - cbn [Utf8.encode filter]. rewrite Hraw.
    destruct (encode_cp_cases ch Hch) as [[Ha ->]|(Ha & b & -> & Hb)];
      rewrite Ha; cbn [bind].
    + exists (ch :: raw). split; [reflexivity|].
      cbn [map]. apply a2b_loop_cons. exact IH.
    + exists (b ++ raw). split; [reflexivity|].
      induction Hb as [|x b Hx _ IHb]; [exact IH|].
      intros q l p out. cbn [app map]. rewrite a2b_loop_drop by exact Hx.
      apply IHb.
Qed.

Lemma decode_part_text (d : str) :
  Forall Utf8.scalar d ->
  _decode_part (Some d)
  = decoded <- Base64.a2b_loop
                 (map Base64.urlsafe_decode_translation (filter is_ascii d))
                 0 0 0 [] ;;
    Ok (Utf8.decode_ignore decoded).
Proof.
  intros Hd. destruct d as [|c cs]; [reflexivity|].
  destruct (a2b_loop_text _ Hd) as (raw & Hraw & Hloop).
  unfold _decode_part. cbn [truthy negb]. rewrite Hraw. cbn [bind].
  unfold Base64.urlsafe_b64decode, Base64.a2b_base64. rewrite Hloop.
  reflexivity.
Qed.

Lemma Forall_filter {A} (P : A -> Prop) (f : A -> bool) (l : list A) :
  Forall P l -> Forall P (filter f l).
Proof.
  intros H. apply Forall_forall. intros x Hx. apply filter_In in Hx as [Hx _].
  revert x Hx. apply Forall_forall. exact H.
Qed.

Lemma a2b_loop_raises (s : bytes) :
  forall q l p out e,
    Base64.a2b_loop s q l p out = Raise e -> e = binascii_Error.
Proof.
  induction s as [|c rest IH]; intros q l p out e H.
  - cbn in H. destruct (q =? 0); [discriminate H | congruence].
  - cbn [Base64.a2b_loop] in H. cbv zeta in H.
    repeat match type of H with
    | (if ?b then _ else _) = _ => destruct b
    end; first [discriminate H | exact (IH _ _ _ _ _ H)].
Qed.

Lemma encode_surrogate (d : str) :
  Forall (fun c => 0 <= c <= 0x10FFFF) d ->
  existsb Utf8.is_surrogate d = true ->
  Utf8.encode d = Raise UnicodeEncodeError.
Proof.
  induction 1 as [|c rest Hc Hrest IH]; intros Hs; [discriminate Hs|].
  cbn [existsb] in Hs. cbn [Utf8.encode].
  destruct (Utf8.is_surrogate c) eqn:Hsur.
  - unfold Utf8.encode_cp. rewrite Hsur.
    unfold Utf8.is_surrogate in Hsur. apply andb_true_iff in Hsur.
    rewrite !Z.leb_le in Hsur.
    destruct (Z.ltb_spec c 0x80); [lia|].
    destruct (Z.ltb_spec c 0x800); [lia|]. reflexivity.
  - cbn [orb] in Hs. rewrite (IH Hs).
    destruct (encode_cp_cases c (conj Hc Hsur)) as [[_ ->]|(_ & b & -> & _)];
      reflexivity.
Qed.

Lemma data_chars_cons (c : Z) (s : str) :
  data_chars (c :: s) = data_chars s + (if is_data_char c then 1 else 0).
Proof.
  unfold data_chars. cbn [filter]. destruct (is_data_char c);
    cbn [List.length]; lia.
Qed.

Lemma data_chars_nonneg (s : str) : 0 <= data_chars s.
Proof. unfold data_chars. lia. Qed.

Lemma pad_then_cons (P : Z -> Prop) (R : str -> Prop) (c : Z) (s : str) :
  pad_then P R (c :: s) <->
  (c = Base64.PAD /\ P 0 /\ R s) \/
  pad_then (fun n => P (n + (if is_data_char c then 1 else 0))) R s.
Proof.
  unfold pad_then. split.
  - intros ([|x pre] & rest & E & HP & HR); cbn [app] in E.
    + injection E as -> ->. left. auto.
    + injection E as -> ->. right. exists pre, rest.
      rewrite data_chars_cons in HP. auto.
  - intros [(-> & HP & HR)|(pre & rest & -> & HP & HR)].
    + exists [], s. auto.
    + exists (c :: pre), rest. rewrite data_chars_cons. auto.
Qed.

Lemma pad_then_nil (P : Z -> Prop) (R : str -> Prop) : ~ pad_then P R [].
Proof. intros ([|x pre] & rest & E & _); discriminate E. Qed.

Lemma pad_then_ext (P P' : Z -> Prop) (R R' : str -> Prop) (s : str) :
  (forall n, 0 <= n -> (P n <-> P' n)) -> (forall r, R r <-> R' r) ->
  (pad_then P R s <-> pad_then P' R' s).
Proof.
  intros HP HR. unfold pad_then.
  split; intros (pre & rest & E & H1 & H2); exists pre, rest;
    (split; [exact E|]); (split; [apply (HP _ (data_chars_nonneg pre)) | apply HR]);
    assumption.
Qed.

Lemma pad_then_filter (f : Z -> bool) (R R' : str -> Prop) :
  f Base64.PAD = true -> (forall c, is_data_char c = true -> f c = true) ->
  (forall r, R (filter f r) <-> R' r) ->
  forall d P, pad_then P R (filter f d) <-> pad_then P R' d.
Proof.
  intros Hpad Hdata HR. induction d as [|c d IH]; intros P.
  - cbn [filter]. split; intros H; destruct (pad_then_nil _ _ H).
  - rewrite (pad_then_cons P R' c d). cbn [filter].
    destruct (f c) eqn:Hf.
    + rewrite (pad_then_cons P R c (filter f d)), IH, HR. reflexivity.
    + assert (Hc : c <> Base64.PAD) by (intros ->; congruence).
      assert (Hd : is_data_char c = false).
      { destruct (is_data_char c) eqn:E; [|reflexivity].
        rewrite (Hdata c E) in Hf. discriminate Hf. }
      rewrite Hd, IH. split.
      * intros H. right. revert H. apply pad_then_ext; intros;
          [rewrite Z.add_0_r|]; reflexivity.
      * intros [[H _]|H]; [congruence|]. revert H.
        apply pad_then_ext; intros; [rewrite Z.add_0_r|]; reflexivity.
Qed.

Lemma data_chars_filter (f : Z -> bool) (d : str) :
  (forall c, is_data_char c = true -> f c = true) ->
  data_chars (filter f d) = data_chars d.
Proof.
  intros H. unfold data_chars.
  rewrite (proj1 (filter_filter is_data_char f d H)). reflexivity.
Qed.

Lemma quad_complete_filter (f : Z -> bool) (d : str) :
  f Base64.PAD = true -> (forall c, is_data_char c = true -> f c = true) ->
  (quad_complete (filter f d) <-> quad_complete d).
Proof.
  intros Hpad Hdata. unfold quad_complete.
  rewrite (data_chars_filter f d Hdata).
  rewrite (pad_then_filter f anything anything Hpad Hdata
             (fun r => iff_refl True) d).
  rewrite (pad_then_filter f (pad_then (fun n => n = 0) anything)
             (pad_then (fun n => n = 0) anything) Hpad Hdata
             (fun r => pad_then_filter f anything anything Hpad Hdata
                         (fun r' => iff_refl True) r _) d).
  reflexivity.
Qed.

Lemma complete_from_start (s : str) : complete_from 0 0 s <-> quad_complete s.
Proof.
  unfold complete_from, quad_complete. rewrite Z.add_0_l.
  rewrite (pad_then_ext (fun n => (0 + n) mod 4 = 3) (fun n => n mod 4 = 3)
             anything anything s) by (intros; reflexivity).
  rewrite (pad_then_ext (fun n => (0 + n) mod 4 = 2) (fun n => n mod 4 = 2)
             (pad_then (fun n => n = 0) anything)
             (pad_then (fun n => n = 0) anything) s) by (intros; reflexivity).
  split; [intros [H|[H|[H|(H & _)]]] | intros [H|[H|H]]]; auto; discriminate H.
Qed.

Lemma complete_from_skip (q p c : Z) (s : str) :
  keeps c = false -> (complete_from q p (c :: s) <-> complete_from q p s).
Proof.
  unfold keeps. intros Hk. apply orb_false_iff in Hk as [Hd Hp].
  apply Z.eqb_neq in Hp.
  assert (E : forall P R, pad_then P R (c :: s) <-> pad_then P R s).
  { intros P R. rewrite pad_then_cons, Hd. split.
    - intros [[H _]|H]; [congruence|]. revert H.
      apply pad_then_ext; intros; [rewrite Z.add_0_r|]; reflexivity.
    - intros H. right. revert H.
      apply pad_then_ext; intros; [rewrite Z.add_0_r|]; reflexivity. }
  unfold complete_from. rewrite !E, data_chars_cons, Hd, Z.add_0_r.
  reflexivity.
Qed.

Lemma complete_from_data (q q' p c : Z) (s : str) :
  is_data_char c = true -> 0 <= q < 4 -> (p = 0 \/ q = 2 /\ p = 1) ->
  q' = (q + 1) mod 4 ->
  (complete_from q p (c :: s) <-> complete_from q' 0 s).
Proof.
  intros Hd Hq Hp ->.
  assert (Hc : c <> Base64.PAD).
  { intros ->. discriminate Hd. }
  assert (E : forall P R, pad_then P R (c :: s)
                          <-> pad_then (fun n => P (n + 1)) R s).
  { intros P R. rewrite pad_then_cons, Hd. split.
    - intros [[H _]|H]; [congruence | exact H].
    - intros H. right. exact H. }
  unfold complete_from. rewrite !E, data_chars_cons, Hd.
  pose proof (data_chars_nonneg s) as Hn.
  rewrite (pad_then_ext (fun n => (q + (n + 1)) mod 4 = 3)
             (fun n => ((q + 1) mod 4 + n) mod 4 = 3) anything anything s)
    by (intros; first [reflexivity | zlia]).
  rewrite (pad_then_ext (fun n => (q + (n + 1)) mod 4 = 2)
             (fun n => ((q + 1) mod 4 + n) mod 4 = 2)
             (pad_then (fun n => n = 0) anything)
             (pad_then (fun n => n = 0) anything) s)
    by (intros; first [reflexivity | zlia]).
  assert (Hdead : ~ pad_then (fun n => n + 1 = 0) anything s).
  { intros (pre & rest & _ & H & _).
    pose proof (data_chars_nonneg pre). lia. }
  split.
  - intros [H|[H|[H|(_ & _ & H)]]]; [left; zlia | auto | auto | tauto].
  - intros [H|[H|[H|(_ & H & _)]]]; [left; zlia | auto | auto | discriminate H].
Qed.

Lemma complete_from_pad (q p : Z) (s : str) :
  0 <= q < 4 -> (p = 0 \/ q = 2 /\ p = 1) ->
  (complete_from q p (Base64.PAD :: s) <->
   if 2 <=? q then
     if 4 <=? q + (p + 1) then True else complete_from q (p + 1) s
   else complete_from q p s).
Proof.
  intros Hq Hp.
  assert (Hd : is_data_char Base64.PAD = false) by reflexivity.
  assert (E : forall P R, pad_then P R (Base64.PAD :: s)
                          <-> (P 0 /\ R s) \/ pad_then P R s).
  { intros P R. rewrite pad_then_cons, Hd. split.
    - intros [(_ & H)|H]; [left; exact H|right]. revert H.
      apply pad_then_ext; intros; [rewrite Z.add_0_r|]; reflexivity.
    - intros [H|H]; [left; split; [reflexivity | exact H]|right]. revert H.
      apply pad_then_ext; intros; [rewrite Z.add_0_r|]; reflexivity. }
  unfold complete_from. rewrite !E, data_chars_cons, Hd, !Z.add_0_r.
  unfold anything at 1 3 5.
  destruct (Z.leb_spec 2 q) as [H2|H2].
  - destruct (Z.leb_spec 4 (q + (p + 1))) as [H4|H4].
    + split; [trivial|]. intros _.
      destruct Hp as [->|[-> ->]].
      * right. left. left. split; [|trivial].
        replace q with 3 by lia. reflexivity.
      * right. right. right. repeat split. left. split; [reflexivity|trivial].
    + assert (q = 2) by lia. assert (p = 0) by lia. subst q p.
      change (2 mod 4) with 2. change (0 + 1) with 1.
      split.
      * intros [H|[[[H _]|H]|[[[_ H]|H]|(_ & H & _)]]];
          [auto | discriminate H | auto | | auto | discriminate H].
        right. right. right. auto.
      * intros [H|[H|[H|(_ & _ & H)]]]; [auto | auto | auto |].
        right. right. left. left. auto.
  - assert (Hp0 : p = 0) by lia. subst p.
    replace (q mod 4) with q by zlia.
    split.
    + intros [H|[[[H _]|H]|[[[H _]|H]|(H & _)]]]; [auto | lia | auto | lia | auto | lia].
    + intros [H|[H|[H|(H & _)]]]; [auto | auto | auto | lia].
Qed.

Lemma a2b_loop_complete (s : bytes) :
  forall q l p out, 0 <= q < 4 -> (p = 0 \/ q = 2 /\ p = 1) ->
    ((exists decoded,
        Base64.a2b_loop (map Base64.urlsafe_decode_translation s) q l p out
        = Ok decoded)
     <-> complete_from q p s).
Proof.
  induction s as [|c rest IH]; intros q l p out Hq Hp.
  - cbn [map Base64.a2b_loop]. unfold complete_from, data_chars.
    cbn [filter List.length Z.of_nat]. rewrite Z.add_0_r.
    destruct (Z.eqb_spec q 0) as [->|H0].
    + split; [intros _; left; reflexivity | eauto].
    + split; [intros [decoded H]; discriminate H|].
      intros [H|[H|[H|(_ & _ & H)]]];
        [zlia | | | ]; destruct (pad_then_nil _ _ H).
  - cbn [map Base64.a2b_loop]. rewrite translation_pad.
    destruct (Z.eqb_spec c Base64.PAD) as [->|Hc].
    + rewrite (complete_from_pad q p rest Hq Hp).
      destruct (Z.leb_spec 2 q) as [H2|H2].
      * destruct (Z.leb_spec 4 (q + (p + 1))) as [H4|H4].
        { split; [trivial | eauto]. }
        { apply IH; [exact Hq | right; lia]. }
      * apply IH; assumption.
    + cbv zeta. rewrite is_data_char_table.
      destruct (is_data_char c) eqn:Hd; cbn [negb].
      * destruct (Z.eqb_spec q 0) as [->|H0];
          [|destruct (Z.eqb_spec q 1) as [->|H1];
            [|destruct (Z.eqb_spec q 2) as [->|H2];
              [|assert (q = 3) by lia; subst q]]].
        { rewrite (complete_from_data 0 1 p c rest Hd Hq Hp eq_refl).
          apply IH; [lia | left; reflexivity]. }
        { rewrite (complete_from_data 1 2 p c rest Hd Hq Hp eq_refl).
          apply IH; [lia | left; reflexivity]. }
        { rewrite (complete_from_data 2 3 p c rest Hd Hq Hp eq_refl).
          apply IH; [lia | left; reflexivity]. }
        { rewrite (complete_from_data 3 0 p c rest Hd Hq Hp eq_refl).
          apply IH; [lia | left; reflexivity]. }
      * rewrite complete_from_skip
          by (unfold keeps; rewrite Hd; apply Z.eqb_neq in Hc; rewrite Hc;
              reflexivity).
        apply IH; assumption.
Qed.

(** C1 (as the code has it).  An absent or empty input gives the empty
    string.  A payload with a surrogate code point raises
    [UnicodeEncodeError].  In any other payload every character that is
    neither a data character nor [=] is skipped, and the outcome depends on
    the quads alone: a text when the payload ends a quad, and otherwise
    [binascii.Error], which reaches the caller.  Without [=], a payload ends
    a quad exactly when its data characters are a multiple of four. *)
Theorem decode_part_contract (d : str) :
  Forall (fun c => 0 <= c <= 0x10FFFF) d ->
  _decode_part None = Ok [] /\ _decode_part (Some []) = Ok [] /\
  (existsb Utf8.is_surrogate d = true ->
   _decode_part (Some d) = Raise UnicodeEncodeError) /\
  (existsb Utf8.is_surrogate d = false ->
   _decode_part (Some d) = _decode_part (Some (filter keeps d)) /\
   (quad_complete d -> exists text, _decode_part (Some d) = Ok text) /\
   (~ quad_complete d -> _decode_part (Some d) = Raise binascii_Error)) /\
  (Forall (fun c => c <> Base64.PAD) d ->
   (quad_complete d <-> data_chars d mod 4 = 0)).
Proof.
  intros Hrange.
  split; [reflexivity|]. split; [reflexivity|]. split; [|split].
  - intros Hs. destruct d as [|c cs]; [discriminate Hs|].
    unfold _decode_part. cbn [truthy negb].
    rewrite (encode_surrogate _ Hrange Hs). reflexivity.
  - intros Hs.
    assert (Hd : Forall Utf8.scalar d).
    { apply Forall_forall. intros c Hc. split.
      - revert c Hc. apply Forall_forall. exact Hrange.
      - destruct (Utf8.is_surrogate c) eqn:E; [|reflexivity].
        assert (existsb Utf8.is_surrogate d = true)
          by (apply existsb_exists; exists c; split; assumption).
        congruence. }
    rewrite (decode_part_text d Hd). split.
    + pose proof (decode_part_text _ (Forall_filter _ keeps d Hd)) as Hk.
      rewrite (proj2 (filter_filter keeps is_ascii d keeps_ascii)) in Hk.
      rewrite a2b_loop_skips.
      rewrite (proj1 (filter_filter keeps is_ascii d keeps_ascii)).
      symmetry. exact Hk.
    + pose proof (a2b_loop_complete (filter is_ascii d) 0 0 0 []
                    ltac:(lia) (or_introl eq_refl)) as Hloop.
      rewrite complete_from_start in Hloop.
      rewrite (quad_complete_filter is_ascii d eq_refl
                 (fun c H => keeps_ascii c (is_data_char_keeps c H))) in Hloop.
      split; intros Hq.
      * apply Hloop in Hq as [decoded ->]. cbn [bind]. eauto.
      * destruct (Base64.a2b_loop _ 0 0 0 []) as [decoded|e] eqn:E.
        { exfalso. apply Hq. apply Hloop. eauto. }
        { rewrite (a2b_loop_raises _ _ _ _ _ _ E). reflexivity. }
  - intros Hpad. unfold quad_complete.
    assert (Hno : forall P R, ~ pad_then P R d).
    { intros P R (pre & rest & E & _).
      rewrite Forall_forall in Hpad. apply (Hpad Base64.PAD); [|reflexivity].
      rewrite E. apply in_or_app. right. left. reflexivity. }
    split; [intros [H|[H|H]] | auto]; [exact H | |]; destruct (Hno _ _ H).
Qed.

(** C1, as stated, fails: two data characters without their padding raise,
    and a character outside the alphabet does not empty the result. *)
Lemma decode_part_raises :
  _decode_part (Some (lit "YQ")) = Raise binascii_Error /\
  ~ (exists text, _decode_part (Some (lit "YQ")) = Ok text) /\
  _decode_part (Some (lit "Y!Q==")) = Ok (lit "a").
Proof.
  split; [vm_compute; reflexivity|]. split; [|vm_compute; reflexivity].
  intros [text H]. vm_compute in H. discriminate H.
Qed.

Lemma in_code_range (s : string) :
  forallb (fun c => in_range 0 0x110000 c) (lit s) = true ->
  Forall (fun c => 0 <= c <= 0x10FFFF) (lit s).
Proof.
  intros H. apply Forall_forall. intros c Hc.
  rewrite forallb_forall in H. apply H in Hc. apply in_range_spec in Hc. lia.
Qed.

Lemma decode_part_contract_witness :
  _decode_part (Some (lit "Y!Q")) = _decode_part (Some (lit "YQ")) /\
  _decode_part (Some (lit "Y!Q")) = Raise binascii_Error /\
  (exists text, _decode_part (Some (lit "YQ==")) = Ok text) /\
  _decode_part (Some (lit "YQ=")) = Raise binascii_Error.
Proof.
  destruct (decode_part_contract (lit "Y!Q") (in_code_range "Y!Q" eq_refl))
    as (_ & _ & _ & H1 & N1).
  destruct (H1 eq_refl) as (Hskip & _ & Hbad).
  destruct (decode_part_contract (lit "YQ==") (in_code_range "YQ==" eq_refl))
    as (_ & _ & _ & H2 & _).
  destruct (H2 eq_refl) as (_ & Hok & _).
  destruct (decode_part_contract (lit "YQ=") (in_code_range "YQ=" eq_refl))
    as (_ & _ & _ & H3 & _).
  destruct (H3 eq_refl) as (_ & _ & Hbad3).
  split; [exact Hskip|]. split; [|split].
  - apply Hbad. intros Hq. apply N1 in Hq; [vm_compute in Hq; discriminate Hq|].
    repeat constructor; vm_compute; congruence.
  - apply Hok. right. right.
    exists (lit "YQ"), (lit "="). split; [reflexivity|].
    split; [reflexivity|]. exists [], []. repeat split.
  - apply Hbad3. unfold quad_complete.
    intros [H|[H|H]].
    + vm_compute in H. discriminate H.
    + apply pad_then_cons in H as [(H & _)|H]; [discriminate H|].
      apply pad_then_cons in H as [(H & _)|H]; [discriminate H|].
      apply pad_then_cons in H as [(_ & H & _)|H];
        [vm_compute in H; discriminate H | destruct (pad_then_nil _ _ H)].
    + apply pad_then_cons in H as [(H & _)|H]; [discriminate H|].
      apply pad_then_cons in H as [(H & _)|H]; [discriminate H|].
      apply pad_then_cons in H as [(_ & _ & H)|H];
        destruct (pad_then_nil _ _ H).
Defined.

(** ** BodyExtractor *)

Lemma str_eqb_eq (a b : str) : str_eqb a b = true <-> a = b.
Proof.
  unfold str_eqb. destruct (list_eq_dec Z.eq_dec a b); split; congruence.
Qed.

Lemma bind_ok {A B} (m : result A) (k : A -> result B) (b : B) :
  bind m k = Ok b -> exists a, m = Ok a /\ k a = Ok b.
Proof. destruct m as [a|e]; cbn; [eauto | discriminate]. Qed.

Lemma for_each_app {A S} (f : A -> S -> result S) (l1 l2 : list A) (st : S) :
  for_each f (l1 ++ l2) st = st' <- for_each f l1 st ;; for_each f l2 st'.
Proof.
  revert st. induction l1 as [|x l1 IH]; intros st; [reflexivity|].
  cbn [app for_each]. destruct (f x st) as [st1|e]; cbn [bind]; [apply IH|reflexivity].
Qed.

Lemma for_each_visit_visited (parts : list MessagePart) (st : buckets) :
  for_each visit_part parts st = for_each visit (visited parts) st.
Proof.
  revert st. induction parts as [|p parts IH]; intros st; [reflexivity|].
  cbn [for_each visited flat_map]. fold (visited parts).
  change (p :: get_parts p ++ visited parts)
    with ((p :: get_parts p) ++ visited parts).
  rewrite for_each_app. unfold visit_part at 1. cbn [for_each].
  destruct (visit p st) as [st1|e]; cbn [bind]; [|reflexivity].
  destruct (for_each visit (get_parts p) st1) as [st2|e]; cbn [bind];
    [apply IH | reflexivity].
Qed.

Lemma visit_ok (p : MessagePart) (st st' : buckets) :
  visit p st = Ok st' ->
  exists tp hp,
    st' = (fst st ++ tp, snd st ++ hp) /\
    decoded_from (filter (wanted text_plain) [p]) tp /\
    decoded_from (filter (wanted text_html) [p]) hp.
Proof.
  unfold visit, wanted, decoded_from. cbn [filter].
  destruct (truthy (get_data p)) eqn:Ht; cbn [andb].
  - destruct (str_eqb (get_mime p) text_plain) eqn:Hp.
    + assert (Hh : str_eqb (get_mime p) text_html = false).
      { apply str_eqb_eq in Hp. rewrite Hp. reflexivity. }
      rewrite Hh. intros H. apply bind_ok in H as (t & Hd & H).
      injection H as <-. exists [t], []. rewrite app_nil_r.
      repeat split; repeat constructor. exact Hd.
    + destruct (str_eqb (get_mime p) text_html) eqn:Hh.
      * intros H. apply bind_ok in H as (t & Hd & H).
        injection H as <-. exists [], [t]. rewrite app_nil_r.
        repeat split; repeat constructor. exact Hd.
      * intros H. injection H as <-. exists [], []. rewrite !app_nil_r.
        destruct st; repeat split; constructor.
  - intros H. injection H as <-. exists [], []. rewrite !app_nil_r.
    destruct st; repeat split; constructor.
Qed.

Lemma for_each_visit_ok (l : list MessagePart) (st st' : buckets) :
  for_each visit l st = Ok st' ->
  exists tp hp,
    st' = (fst st ++ tp, snd st ++ hp) /\
    decoded_from (filter (wanted text_plain) l) tp /\
    decoded_from (filter (wanted text_html) l) hp.
Proof.
  revert st. induction l as [|p l IH]; intros st H.
  - injection H as <-. exists [], []. rewrite !app_nil_r.
    destruct st; repeat split; constructor.
  - cbn [for_each] in H. apply bind_ok in H as (st1 & H1 & H2).
    apply visit_ok in H1 as (tp1 & hp1 & -> & Ht1 & Hh1).
    apply IH in H2 as (tp2 & hp2 & -> & Ht2 & Hh2). cbn [fst snd].
    exists (tp1 ++ tp2), (hp1 ++ hp2). rewrite !app_assoc.
    split; [reflexivity|].
    change (p :: l) with ([p] ++ l). rewrite !filter_app.
    split; apply Forall2_app; assumption.
Qed.

Lemma collect_ok (parts : list MessagePart) (tp hp : list str) :
  collect parts = Ok (tp, hp) ->
  decoded_from (filter (wanted text_plain) (visited parts)) tp /\
  decoded_from (filter (wanted text_html) (visited parts)) hp.
Proof.
  unfold collect. rewrite for_each_visit_visited. intros H.
  apply for_each_visit_ok in H as (tp' & hp' & E & Ht & Hh).
  cbn in E. injection E as -> ->. split; assumption.
Qed.

Lemma visit_shallow (p q : MessagePart) (st : buckets) :
  get_mime p = get_mime q -> get_data p = get_data q ->
  visit p st = visit q st.
Proof. intros Hm Hd. unfold visit. rewrite Hm, Hd. reflexivity. Qed.

Lemma for_each_visit_shallow (l1 l2 : list MessagePart) :
  Forall2 (fun p q => get_mime p = get_mime q /\ get_data p = get_data q) l1 l2 ->
  forall st, for_each visit l1 st = for_each visit l2 st.
Proof.
  induction 1 as [|p q l1 l2 [Hm Hd] _ IH]; intros st; [reflexivity|].
  cbn [for_each]. rewrite (visit_shallow p q st Hm Hd).
  destruct (visit q st); cbn [bind]; [apply IH | reflexivity].
Qed.

Lemma visited_prune (parts : list MessagePart) :
  Forall2 (fun p q => get_mime p = get_mime q /\ get_data p = get_data q)
    (visited (map (cut_below cut) parts)) (visited parts).
Proof.
  induction parts as [|p parts IH]; [constructor|].
  cbn [map visited flat_map]. fold (visited parts).
  fold (visited (map (cut_below cut) parts)).
  constructor; [destruct p as [m [b|] ps hs]; split; reflexivity|].
  apply Forall2_app; [|exact IH].
  destruct p as [m b [subs|] hs]; cbn; [|constructor].
  induction subs as [|g subs IHs]; cbn; constructor; [|exact IHs].
  destruct g as [m' [b'|] ps' hs']; split; reflexivity.
Qed.

Lemma for_each_visit_falsy (l : list MessagePart) (st : buckets) :
  Forall falsy l -> for_each visit l st = Ok st.
Proof.
  induction 1 as [|p l Hp _ IH]; [reflexivity|].
  cbn [for_each]. unfold visit at 1. rewrite Hp. cbn [bind]. exact IH.
Qed.

Lemma decoded_from_In (ps : list MessagePart) (texts : list str) (p : MessagePart) :
  decoded_from ps texts -> In p ps ->
  exists t, _decode_part (get_data p) = Ok t /\ In t texts.
Proof.
  induction 1 as [|q t ps texts Hq _ IH]; intros Hin; [destruct Hin|].
  destruct Hin as [->|Hin].
  - exists t. split; [exact Hq | left; reflexivity].
  - destruct (IH Hin) as (t' & Hd & Ht'). exists t'.
    split; [exact Hd | right; exact Ht'].
Qed.

Lemma for_each_visit_complete (l : list MessagePart) :
  forall tp hp st,
    decoded_from (filter (wanted text_plain) l) tp ->
    decoded_from (filter (wanted text_html) l) hp ->
    for_each visit l st = Ok (fst st ++ tp, snd st ++ hp).
Proof.
  unfold decoded_from.
  induction l as [|p l IH]; intros tp hp st Ht Hh.
  - inversion Ht; inversion Hh; subst. rewrite !app_nil_r.
    destruct st; reflexivity.
  - cbn [filter] in Ht, Hh. cbn [for_each]. unfold visit, wanted in *.
    destruct (truthy (get_data p)); cbn [andb] in Ht, Hh.
    + destruct (str_eqb (get_mime p) text_plain) eqn:Ep.
      * assert (Eh : str_eqb (get_mime p) text_html = false).
        { apply str_eqb_eq in Ep. rewrite Ep. reflexivity. }
        rewrite Eh in Hh. inversion Ht as [|? t ? tp' Hd Ht']; subst.
        rewrite Hd. cbn [bind]. rewrite (IH tp' hp _ Ht' Hh).
        cbn [fst snd]. rewrite <- app_assoc. reflexivity.
      * destruct (str_eqb (get_mime p) text_html) eqn:Eh.
        { inversion Hh as [|? h ? hp' Hd Hh']; subst.
          rewrite Hd. cbn [bind]. rewrite (IH tp hp' _ Ht Hh').
          cbn [fst snd]. rewrite <- app_assoc. reflexivity. }
        { cbn [bind]. apply IH; assumption. }
    + cbn [bind]. apply IH; assumption.
Qed.

Lemma for_each_visit_failure (l : list MessagePart) (p : MessagePart) :
  In p l ->
  wanted text_plain p = true \/ wanted text_html p = true ->
  (forall t, _decode_part (get_data p) <> Ok t) ->
  forall st, exists e, for_each visit l st = Raise e.
Proof.
  intros Hin Hw Hfail st.
  destruct (for_each visit l st) as [st'|e] eqn:E; [|eauto].
  exfalso. apply for_each_visit_ok in E as (tp & hp & _ & Ht & Hh).
  destruct Hw as [Hw|Hw].
  - destruct (decoded_from_In _ _ p Ht) as (t & Hd & _);
      [apply filter_In; split; assumption | exact (Hfail t Hd)].
  - destruct (decoded_from_In _ _ p Hh) as (t & Hd & _);
      [apply filter_In; split; assumption | exact (Hfail t Hd)].
Qed.

Lemma join_blank_line (t : str) (rest : list str) :
  join blank_line (t :: rest) = t ++ flat_map (fun x => 10 :: 10 :: x) rest.
Proof.
  revert t. induction rest as [|x rest IH]; intros t.
  - cbn. rewrite app_nil_r. reflexivity.
  - change (join blank_line (t :: x :: rest))
      with (t ++ blank_line ++ join blank_line (x :: rest)).
    rewrite IH. reflexivity.
Qed.

Section ExtractorProperties.

Variable get_text : str -> result str.

(** C2 (as the code has it).  When the root's own data is present and not
    empty, the result is that of [_decode_part] on it, whatever the
    sub-parts are. *)
Theorem extract_direct_body (root : MessagePart) :
  truthy (get_data root) = true ->
  extract_body_from_payload get_text root = _decode_part (get_data root) /\
  forall m b ps ps' hs,
    root = MkPart m b ps hs -> extract_body_from_payload get_text (MkPart m b ps' hs) = extract_body_from_payload get_text root.
Proof.
  intros Ht. unfold extract_body_from_payload. rewrite Ht.
  split; [reflexivity|].
  intros m b ps ps' hs ->.
  change (get_data (MkPart m b ps' hs)) with (get_data (MkPart m b ps hs)).
  rewrite Ht. reflexivity.
Qed.

(** C3 (as the code has it).  Without direct data at the root, and when
    every text/plain and text/html part with data within reach decodes, the
    result follows the two lists of decoded texts: the text entries, each
    separated from the next by two line feeds; failing that, whatever the
    stripper gives for the first html entry alone; failing that, the
    sentinel.  When such a part does not decode, an exception is raised
    instead. *)
Theorem extract_selection (root : MessagePart) :
  truthy (get_data root) = false ->
  (forall tp hp,
     decoded_from (filter (wanted text_plain) (visited (get_parts root))) tp ->
     decoded_from (filter (wanted text_html) (visited (get_parts root))) hp ->
     (forall t rest, tp = t :: rest ->
        extract_body_from_payload get_text root
        = Ok (t ++ flat_map (fun x => 10 :: 10 :: x) rest)) /\
     (tp = [] -> forall h later, hp = h :: later ->
        extract_body_from_payload get_text root = get_text h) /\
     (tp = [] -> hp = [] ->
        extract_body_from_payload get_text root = Ok no_body)) /\
  (forall p, In p (visited (get_parts root)) ->
     wanted text_plain p = true \/ wanted text_html p = true ->
     (forall t, _decode_part (get_data p) <> Ok t) ->
     exists e, extract_body_from_payload get_text root = Raise e).
Proof.
  intros Hf. unfold extract_body_from_payload. rewrite Hf.
  unfold collect. rewrite for_each_visit_visited. split.
  - intros tp hp Ht Hh.
    rewrite (for_each_visit_complete _ tp hp ([], []) Ht Hh).
    cbn [bind fst snd app]. unfold select. cbn [fst snd].
    split; [|split].
    + intros t rest ->. rewrite join_blank_line. reflexivity.
    + intros -> h later ->. reflexivity.
    + intros -> ->. reflexivity.
  - intros p Hin Hw Hfail.
    destruct (for_each_visit_failure _ p Hin Hw Hfail ([], [])) as [e ->].
    exists e. reflexivity.
Qed.

(** C4.  Nothing below the second level under the root is read: pruning it
    away does not change the result, and a payload whose root, parts and
    sub-parts carry no data gives the sentinel whatever lies deeper. *)
Theorem extract_depth_cap (root : MessagePart) :
  extract_body_from_payload get_text root = extract_body_from_payload get_text (prune root) /\
  (falsy root ->
   (forall p, In p (get_parts root) ->
      falsy p /\ forall q, In q (get_parts p) -> falsy q) ->
   extract_body_from_payload get_text root = Ok no_body).
Proof.
  split.
  - unfold extract_body_from_payload.
    replace (get_data (prune root)) with (get_data root)
      by (destruct root as [m [b|] ps hs]; reflexivity).
    destruct (truthy (get_data root)); [reflexivity|].
    f_equal. unfold collect. rewrite !for_each_visit_visited.
    replace (get_parts (prune root))
      with (map (cut_below cut) (get_parts root))
      by (destruct root as [m b [ps|] hs]; reflexivity).
    symmetry. apply for_each_visit_shallow. apply visited_prune.
  - intros Hroot Hparts. unfold extract_body_from_payload.
    unfold falsy in Hroot. rewrite Hroot.
    unfold collect. rewrite for_each_visit_visited.
    rewrite for_each_visit_falsy; [reflexivity|].
    apply Forall_forall. intros q Hq. unfold visited in Hq.
    apply in_flat_map in Hq as (p & Hp & Hq).
    destruct (Hparts p Hp) as [Hfp Hsub].
    destruct Hq as [<-|Hq]; [exact Hfp | exact (Hsub q Hq)].
Qed.

End ExtractorProperties.

Lemma extract_direct_body_witness :
  extract_body_from_payload plain_text
    (node text_plain "YQ==" [leaf text_plain "Yg=="])
  = _decode_part (Some (lit "YQ==")).
Proof.
  apply (extract_direct_body plain_text
           (node text_plain "YQ==" [leaf text_plain "Yg=="])).
  reflexivity.
Defined.

(** C2, as stated, fails when the root's data is present but empty: the
    sub-parts are read, and without sub-parts the sentinel is returned. *)
Lemma extract_empty_direct_body :
  get_data empty_data_sample = Some [] /\
  _decode_part (get_data empty_data_sample) = Ok [] /\
  extract_body_from_payload plain_text empty_data_sample = Ok (lit "one") /\
  extract_body_from_payload plain_text (cut empty_data_sample) = Ok no_body.
Proof. vm_compute. repeat split; reflexivity. Qed.

Lemma extract_selection_witness :
  extract_body_from_payload plain_text
    (container [leaf text_plain "YQ=="; leaf text_html "dHdv";
                leaf text_plain "Yg=="])
  = Ok (lit "a" ++ [10; 10] ++ lit "b") /\
  extract_body_from_payload (fun s => Ok (42 :: s))
    (container [leaf text_html "b25l"; leaf text_html "dHdv"])
  = Ok (42 :: lit "one").
Proof.
  split.
  - destruct (extract_selection plain_text
                (container [leaf text_plain "YQ=="; leaf text_html "dHdv";
                            leaf text_plain "Yg=="]) eq_refl) as [H _].
    destruct (H [lit "a"; lit "b"] [lit "two"]) as (Ht & _).
    + repeat constructor.
    + repeat constructor.
    + exact (Ht (lit "a") [lit "b"] eq_refl).
  - destruct (extract_selection (fun s => Ok (42 :: s))
                (container [leaf text_html "b25l"; leaf text_html "dHdv"])
                eq_refl) as [H _].
    destruct (H [] [lit "one"; lit "two"]) as (_ & Hh & _).
    + constructor.
    + repeat constructor.
    + exact (Hh eq_refl (lit "one") [lit "two"] eq_refl).
Defined.

(** C3, as stated, fails when a part within reach does not decode, or when
    the stripper rejects the markup: the text part "a" is there, and the
    html part is there, yet an exception is raised. *)
Lemma extract_raises_on_part :
  extract_body_from_payload plain_text
    (container [leaf text_plain "YQ=="; leaf text_html "YQ"])
  = Raise binascii_Error /\
  extract_body_from_payload (fun _ => Raise ParserRejectedMarkup)
    (container [leaf text_html "b25l"])
  = Raise ParserRejectedMarkup.
Proof. split; vm_compute; reflexivity. Qed.

Example extract_text_over_html :
  extract_body_from_payload plain_text
    (container [leaf text_plain "YQ=="; leaf text_html "dHdv";
                leaf text_plain "Yg=="])
  = Ok (lit "a" ++ [10; 10] ++ lit "b").
Proof. vm_compute. reflexivity. Qed.

Lemma extract_depth_cap_witness :
  extract_body_from_payload plain_text
    (container [container [container [leaf text_plain "YQ=="]]])
  = Ok no_body.
Proof.
  apply (extract_depth_cap plain_text
           (container [container [container [leaf text_plain "YQ=="]]])).
  - reflexivity.
  - intros p [<-|[]]. split; [reflexivity|].
    intros q [<-|[]]. reflexivity.
Defined.

(** C5 (as the code has it).  The two loops are one pass over the parts in
    nesting order, each part followed at once by its own sub-parts, and
    each bucket holds, in that order, the decoded data of the parts of its
    MIME type. *)
Theorem buckets_follow_nesting_order (parts : list MessagePart) :
  collect parts = for_each visit (visited parts) ([], []) /\
  forall tp hp,
    collect parts = Ok (tp, hp) ->
    decoded_from (filter (wanted text_plain) (visited parts)) tp /\
    decoded_from (filter (wanted text_html) (visited parts)) hp.
Proof.
  split; [apply for_each_visit_visited|].
  intros tp hp H. apply collect_ok. exact H.
Qed.

(** C5, as stated, fails: the sub-part "b" of the first part is filed
    before the second top-level part "c". *)
Lemma buckets_not_level_order :
  collect nested_sample = Ok ([lit "a"; lit "b"; lit "c"], []) /\
  ~ decoded_from (filter (wanted text_plain) (level_order nested_sample))
      [lit "a"; lit "b"; lit "c"].
Proof.
  split; [vm_compute; reflexivity|].
  intros H.
  assert (E : filter (wanted text_plain) (level_order nested_sample)
              = [node text_plain "YQ==" [leaf text_plain "Yg=="];
                 leaf text_plain "Yw=="; leaf text_plain "Yg=="])
    by (vm_compute; reflexivity).
  rewrite E in H. clear E.
  inversion H as [|? ? ? ? _ H1]; subst.
  inversion H1 as [|? ? ? ? Hb _]; subst.
  vm_compute in Hb. discriminate Hb.
Qed.

Lemma buckets_follow_nesting_order_witness :
  decoded_from (filter (wanted text_plain) (visited nested_sample))
    [lit "a"; lit "b"; lit "c"].
Proof.
  apply (proj2 (buckets_follow_nesting_order nested_sample)
           [lit "a"; lit "b"; lit "c"] []).
  vm_compute. reflexivity.
Defined.

(** C10 (as the code has it).  A part directly under the root that has
    data of its own, not empty, and sub-parts: once the loops have run
    without raising, its decoded data is in the bucket of its MIME type, and
    so is the decoded data of each sub-part that has data. *)
Theorem no_fast_path_below_root
  (parts : list MessagePart) (tp hp : list str) (p q : MessagePart) :
  collect parts = Ok (tp, hp) ->
  In p parts -> In q (get_parts p) ->
  truthy (get_data p) = true -> truthy (get_data q) = true ->
  (get_mime p = text_plain -> exists t, _decode_part (get_data p) = Ok t /\ In t tp) /\
  (get_mime p = text_html -> exists t, _decode_part (get_data p) = Ok t /\ In t hp) /\
  (get_mime q = text_plain -> exists t, _decode_part (get_data q) = Ok t /\ In t tp) /\
  (get_mime q = text_html -> exists t, _decode_part (get_data q) = Ok t /\ In t hp).
Proof.
  intros Hc Hp Hq Hdp Hdq.
  destruct (collect_ok parts tp hp Hc) as [Ht Hh].
  assert (Vp : In p (visited parts)).
  { apply in_flat_map. exists p. split; [exact Hp | left; reflexivity]. }
  assert (Vq : In q (visited parts)).
  { apply in_flat_map. exists p. split; [exact Hp | right; exact Hq]. }
  assert (W : forall r mime, In r (visited parts) -> truthy (get_data r) = true ->
            get_mime r = mime -> In r (filter (wanted mime) (visited parts))).
  { intros r mime Hr Hd Hm. apply filter_In. split; [exact Hr|].
    unfold wanted. rewrite Hd. cbn [andb]. apply str_eqb_eq. exact Hm. }
  repeat split; intros Hm.
  - exact (decoded_from_In _ _ p Ht (W p text_plain Vp Hdp Hm)).
  - exact (decoded_from_In _ _ p Hh (W p text_html Vp Hdp Hm)).
  - exact (decoded_from_In _ _ q Ht (W q text_plain Vq Hdq Hm)).
  - exact (decoded_from_In _ _ q Hh (W q text_html Vq Hdq Hm)).
Qed.

Lemma no_fast_path_below_root_witness :
  (exists t, _decode_part (Some (lit "YQ==")) = Ok t /\ In t [lit "a"]) /\
  (exists t, _decode_part (Some (lit "Yg==")) = Ok t /\ In t [lit "b"]).
Proof.
  pose (q := leaf text_html "Yg==").
  pose (p := node text_plain "YQ==" [q]).
  destruct (no_fast_path_below_root [p] [lit "a"] [lit "b"] p q)
    as (Hp & _ & _ & Hq);
    [vm_compute; reflexivity | left; reflexivity | left; reflexivity
    | reflexivity | reflexivity |].
  split; [apply Hp | apply Hq]; reflexivity.
Defined.

(** C10, as stated, fails when the data of the part is present but empty:
    nothing is filed for the part itself, only for its sub-part. *)
Lemma empty_own_data_not_collected :
  get_data empty_data_sample = Some [] /\
  get_mime empty_data_sample = text_plain /\
  _decode_part (get_data empty_data_sample) = Ok [] /\
  collect [empty_data_sample] = Ok ([], [lit "one"]) /\
  extract_body_from_payload plain_text (container [empty_data_sample])
  = Ok (lit "one").
Proof. vm_compute. repeat split; reflexivity. Qed.

(** ** InboxFetcher *)

Lemma ascii_cp_forallb (s : str) : Forall ascii_cp s <-> forallb is_ascii s = true.
Proof.
  rewrite forallb_forall, Forall_forall. unfold ascii_cp, is_ascii.
  split; intros H c Hc; specialize (H c Hc).
  - apply andb_true_iff. rewrite Z.leb_le, Z.ltb_lt. exact H.
  - apply andb_true_iff in H. rewrite Z.leb_le, Z.ltb_lt in H. exact H.
Qed.

Lemma caseless_ascii (a b : str) :
  caseless_eq a b -> Forall ascii_cp b ->
  Forall ascii_cp a /\ map ascii_lower_cp a = map ascii_lower_cp b.
Proof.
  induction 1 as [|x y a b Hxy _ IH]; intros Hb; [split; constructor|].
  inversion Hb as [|? ? Hy Hb']; subst. destruct (IH Hb') as [Ha Hmap].
  split.
  - constructor; [|exact Ha]. unfold ascii_cp, ascii_lower_cp in *.
    revert Hxy. decide_tests; cbn [andb]; lia.
  - cbn [map]. rewrite Hxy, Hmap. reflexivity.
Qed.

Lemma map_eq_caseless (a b : str) :
  map ascii_lower_cp a = map ascii_lower_cp b -> caseless_eq a b.
Proof.
  revert b. induction a as [|x a IH]; intros [|y b] H; try discriminate H.
  - constructor.
  - cbn [map] in H. injection H as Hxy Hrest.
    constructor; [exact Hxy | exact (IH b Hrest)].
Qed.

Section FetcherProperties.

Variable get_text : str -> result str.
Variable unicode_lower : str -> str.

Lemma lower_ascii (s : str) :
  Forall ascii_cp s -> lower unicode_lower s = map ascii_lower_cp s.
Proof.
  intros H. unfold lower. apply ascii_cp_forallb in H. rewrite H. reflexivity.
Qed.

(** A name that is a key up to case is lowered to the lowered key. *)
Lemma lower_named (key : string) (h : Header) :
  Forall ascii_cp (lit key) -> named key h ->
  lower unicode_lower (from_opt [] (name h)) = map ascii_lower_cp (lit key).
Proof.
  intros Hkey Hn. destruct (caseless_ascii _ _ Hn Hkey) as [Ha Hmap].
  rewrite (lower_ascii _ Ha). exact Hmap.
Qed.

Lemma lower_not_named (key : string) (h : Header) :
  ascii_name h -> ~ named key h ->
  lower unicode_lower (from_opt [] (name h)) <> map ascii_lower_cp (lit key).
Proof.
  intros Ha Hn E. apply Hn. unfold named. apply map_eq_caseless.
  rewrite <- E. symmetry. apply lower_ascii. exact Ha.
Qed.

Lemma step_subject (st : str * str) (h : Header) (v : str) :
  named "Subject" h -> value h = Some v ->
  header_step unicode_lower st h = (v, snd st).
Proof.
  intros Hn Hv. unfold header_step.
  rewrite (lower_named "Subject" h) by (try assumption; apply ascii_cp_forallb; reflexivity).
  rewrite Hv. reflexivity.
Qed.

Lemma step_from (st : str * str) (h : Header) (v : str) :
  named "From" h -> value h = Some v ->
  header_step unicode_lower st h = (fst st, v).
Proof.
  intros Hn Hv. unfold header_step.
  rewrite (lower_named "From" h) by (try assumption; apply ascii_cp_forallb; reflexivity).
  rewrite Hv. reflexivity.
Qed.

Lemma step_keeps_subject (st : str * str) (h : Header) :
  ascii_name h -> ~ named "Subject" h ->
  fst (header_step unicode_lower st h) = fst st.
Proof.
  intros Ha Hn. unfold header_step.
  pose proof (lower_not_named "Subject" h Ha Hn) as Hne.
  destruct (str_eqb _ (lit "subject")) eqn:E.
  - apply str_eqb_eq in E. exfalso. apply Hne. exact E.
  - destruct (str_eqb _ (lit "from")); reflexivity.
Qed.

Lemma step_keeps_sender (st : str * str) (h : Header) :
  ascii_name h -> ~ named "From" h ->
  snd (header_step unicode_lower st h) = snd st.
Proof.
  intros Ha Hn. unfold header_step.
  pose proof (lower_not_named "From" h Ha Hn) as Hne.
  destruct (str_eqb _ (lit "subject")); [reflexivity|].
  destruct (str_eqb _ (lit "from")) eqn:E; [|reflexivity].
  apply str_eqb_eq in E. exfalso. apply Hne. exact E.
Qed.

Lemma fold_keeps_subject (hs : list Header) (st : str * str) :
  Forall ascii_name hs -> Forall (fun h => ~ named "Subject" h) hs ->
  fst (fold_left (header_step unicode_lower) hs st) = fst st.
Proof.
  revert st. induction hs as [|h hs IH]; intros st Ha Hn; [reflexivity|].
  inversion Ha; inversion Hn; subst. cbn [fold_left].
  rewrite IH by assumption. apply step_keeps_subject; assumption.
Qed.

Lemma fold_keeps_sender (hs : list Header) (st : str * str) :
  Forall ascii_name hs -> Forall (fun h => ~ named "From" h) hs ->
  snd (fold_left (header_step unicode_lower) hs st) = snd st.
Proof.
  revert st. induction hs as [|h hs IH]; intros st Ha Hn; [reflexivity|].
  inversion Ha; inversion Hn; subst. cbn [fold_left].
  rewrite IH by assumption. apply step_keeps_sender; assumption.
Qed.

Lemma assemble_ok (m : MessageRef) (mdata : MessageData) (email : Email) :
  assemble get_text unicode_lower m mdata = Ok email ->
  let hs := get_headers (from_opt empty_part (payload mdata)) in
  e_id email = ref_id m /\
  e_subject email = fst (scan_headers unicode_lower hs) /\
  e_sender email = snd (scan_headers unicode_lower hs) /\
  e_snippet email = from_opt [] (snippet mdata) /\
  extract_body_from_payload get_text (from_opt empty_part (payload mdata))
  = Ok (e_body email).
Proof.
  unfold assemble. intros H. apply bind_ok in H as (b & Hb & H).
  injection H as <-. cbn. repeat split. exact Hb.
Qed.

End FetcherProperties.

Section RecordAssembly.

Variable get_text : str -> result str.
Variable unicode_lower : str -> str.

(** C8.  A header whose name is Subject (or From) in any letter case, and
    that no later header of that name follows, gives the record its subject
    (its sender).  When no header of the message is named so, the record
    has the default; a message without headers has both defaults. *)
Theorem header_lookup_defaults
  (m : MessageRef) (mdata : MessageData) (email : Email) :
  assemble get_text unicode_lower m mdata = Ok email ->
  Forall ascii_name (get_headers (from_opt empty_part (payload mdata))) ->
  (forall before h after v,
     get_headers (from_opt empty_part (payload mdata)) = before ++ h :: after ->
     value h = Some v ->
     (named "Subject" h -> Forall (fun h' => ~ named "Subject" h') after ->
      e_subject email = v) /\
     (named "From" h -> Forall (fun h' => ~ named "From" h') after ->
      e_sender email = v)) /\
  (Forall (fun h => ~ named "Subject" h)
     (get_headers (from_opt empty_part (payload mdata))) ->
   e_subject email = no_subject) /\
  (Forall (fun h => ~ named "From" h)
     (get_headers (from_opt empty_part (payload mdata))) ->
   e_sender email = unknown_sender) /\
  (get_headers (from_opt empty_part (payload mdata)) = [] ->
   e_subject email = no_subject /\ e_sender email = unknown_sender).
Proof.
  intros Hok Hascii.
  destruct (assemble_ok get_text unicode_lower m mdata email Hok)
    as (_ & Hsub & Hsnd & _).
  split; [|split; [|split]].
  - intros before h after v Hhs Hv.
    rewrite Hhs in Hsub, Hsnd, Hascii. unfold scan_headers in Hsub, Hsnd.
    rewrite fold_left_app in Hsub, Hsnd. cbn [fold_left] in Hsub, Hsnd.
    apply Forall_app in Hascii as [_ Hascii].
    inversion Hascii as [|? ? _ Hafter]; subst.
    split; intros Hn Hlast.
    + rewrite Hsub, fold_keeps_subject by assumption.
      rewrite (step_subject unicode_lower _ h v Hn Hv). reflexivity.
    + rewrite Hsnd, fold_keeps_sender by assumption.
      rewrite (step_from unicode_lower _ h v Hn Hv). reflexivity.
  - intros Hnone. rewrite Hsub. unfold scan_headers.
    rewrite fold_keeps_subject by assumption. reflexivity.
  - intros Hnone. rewrite Hsnd. unfold scan_headers.
    rewrite fold_keeps_sender by assumption. reflexivity.
  - intros Hnil. rewrite Hsub, Hsnd, Hnil. split; reflexivity.
Qed.

(** C9.  Of several headers named Subject (or From), the last one gives
    the record its value. *)
Theorem last_header_wins
  (m : MessageRef) (mdata : MessageData) (email : Email)
  (before after : list Header) (h : Header) (v : str) :
  assemble get_text unicode_lower m mdata = Ok email ->
  get_headers (from_opt empty_part (payload mdata)) = before ++ h :: after ->
  Forall ascii_name after ->
  value h = Some v ->
  (named "Subject" h -> Forall (fun h' => ~ named "Subject" h') after ->
   e_subject email = v) /\
  (named "From" h -> Forall (fun h' => ~ named "From" h') after ->
   e_sender email = v).
Proof.
  intros Hok Hhs Hascii Hv.
  destruct (assemble_ok get_text unicode_lower m mdata email Hok)
    as (_ & Hsub & Hsnd & _).
  rewrite Hhs in Hsub, Hsnd. unfold scan_headers in Hsub, Hsnd.
  rewrite fold_left_app in Hsub, Hsnd. cbn [fold_left] in Hsub, Hsnd.
  split; intros Hn Hlast.
  - rewrite Hsub, fold_keeps_subject by assumption.
    rewrite (step_subject unicode_lower _ h v Hn Hv). reflexivity.
  - rewrite Hsnd, fold_keeps_sender by assumption.
    rewrite (step_from unicode_lower _ h v Hn Hv). reflexivity.
Qed.

Variable World : Type.
Variable messages_list : Z -> World -> result ListResponse * World.
Variable messages_get : str -> World -> result MessageData * World.

Lemma fetch_loop_ok (msgs : list MessageRef) :
  forall results w emails w',
    fetch_loop get_text unicode_lower World messages_get msgs results w
    = (Ok emails, w') ->
    exists new, emails = results ++ new /\ map e_id new = map ref_id msgs.
Proof.
  induction msgs as [|m msgs IH]; intros results w emails w' H.
  - cbn in H. injection H as <- _. exists []. rewrite app_nil_r. split; reflexivity.
  - cbn [fetch_loop] in H. unfold io_bind at 1 in H.
    destruct (messages_get (ref_id m) w) as [[mdata|e] w1]; [|discriminate H].
    unfold io_bind at 1, io_lift in H.
    destruct (assemble get_text unicode_lower m mdata) as [email|e] eqn:Ha;
      [|discriminate H].
    apply IH in H as (new & -> & Hids).
    destruct (assemble_ok get_text unicode_lower m mdata email Ha) as (Hid & _).
    exists (email :: new). rewrite <- app_assoc. split; [reflexivity|].
    cbn [map]. rewrite Hid, Hids. reflexivity.
Qed.

Lemma fetch_loop_total (msgs : list MessageRef) :
  (forall m w, In m msgs ->
     exists mdata w', messages_get (ref_id m) w = (Ok mdata, w') /\
       exists email, assemble get_text unicode_lower m mdata = Ok email) ->
  forall results w,
    exists emails w',
      fetch_loop get_text unicode_lower World messages_get msgs results w
      = (Ok emails, w').
Proof.
  induction msgs as [|m msgs IH]; intros Hall results w.
  - exists results, w. reflexivity.
  - destruct (Hall m w (or_introl eq_refl)) as (mdata & w1 & Hget & email & Ha).
    cbn [fetch_loop]. unfold io_bind at 1. rewrite Hget.
    unfold io_bind at 1, io_lift. rewrite Ha.
    apply IH. intros m' w' Hin. apply Hall. right. exact Hin.
Qed.

(** C7.  Once the listing has succeeded, a returned batch has one record
    per listed identifier, in the order of the listing; and the batch is
    returned whenever each listed message can be retrieved and assembled. *)
Theorem fetch_follows_listing
  (max_results : Z) (w w1 : World) (resp : ListResponse) :
  messages_list max_results w = (Ok resp, w1) ->
  (forall emails w2,
     fetch_unread_emails get_text unicode_lower World messages_list
       messages_get max_results w = (Ok emails, w2) ->
     map e_id emails = map ref_id (from_opt [] (messages resp)) /\
     List.length emails = List.length (from_opt [] (messages resp))) /\
  ((forall m w', In m (from_opt [] (messages resp)) ->
      exists mdata w'', messages_get (ref_id m) w' = (Ok mdata, w'') /\
        exists email, assemble get_text unicode_lower m mdata = Ok email) ->
   exists emails w2,
     fetch_unread_emails get_text unicode_lower World messages_list
       messages_get max_results w = (Ok emails, w2)).
Proof.
  intros Hlist. unfold fetch_unread_emails, io_bind. rewrite Hlist. split.
  - intros emails w2 H. apply fetch_loop_ok in H as (new & -> & Hids).
    cbn [app]. split; [exact Hids|].
    rewrite <- (length_map e_id new), Hids. apply length_map.
  - intros Hall. apply fetch_loop_total. exact Hall.
Qed.

End RecordAssembly.

(** ** The sample mailbox *)

Example assemble_invoice (m : MessageRef) (preview : str) :
  assemble plain_text same m (invoice_message invoice_headers preview)
  = Ok {| e_id := ref_id m; e_subject := lit "Q3 Invoice";
          e_sender := lit "billing@acme.test";
          e_body := lit "Please pay $500 by Friday.";
          e_snippet := preview |}.
Proof. vm_compute. reflexivity. Qed.

Lemma fetch_follows_listing_witness :
  exists emails w2,
    fetch_unread_emails plain_text same nat three_unread get_invoice 5 0%nat
    = (Ok emails, w2) /\
    map e_id emails = [lit "m1"; lit "m2"; lit "m3"] /\
    List.length emails = 3%nat.
Proof.
  destruct (fetch_follows_listing plain_text same nat three_unread get_invoice
              5 0%nat 1%nat _ eq_refl) as [Hpart Htotal].
  destruct Htotal as (emails & w2 & H).
  { intros m w' _. eexists. eexists. split; [reflexivity|].
    eexists. apply assemble_invoice. }
  exists emails, w2. split; [exact H|]. exact (Hpart emails w2 H).
Defined.

Lemma header_lookup_defaults_witness :
  exists email,
    assemble plain_text same {| ref_id := lit "m1" |}
      (invoice_message [header "SUBJECT" "Q3 Invoice"] []) = Ok email /\
    e_subject email = lit "Q3 Invoice" /\ e_sender email = unknown_sender.
Proof.
  exists {| e_id := lit "m1"; e_subject := lit "Q3 Invoice";
            e_sender := unknown_sender;
            e_body := lit "Please pay $500 by Friday."; e_snippet := [] |}.
  split; [vm_compute; reflexivity|].
  destruct (header_lookup_defaults plain_text same {| ref_id := lit "m1" |}
              (invoice_message [header "SUBJECT" "Q3 Invoice"] [])
              {| e_id := lit "m1"; e_subject := lit "Q3 Invoice";
                 e_sender := unknown_sender;
                 e_body := lit "Please pay $500 by Friday.";
                 e_snippet := [] |})
    as (Hlook & _ & Hfrom & _).
  - vm_compute. reflexivity.
  - repeat constructor; vm_compute; congruence.
  - split.
    + apply (Hlook [] (header "SUBJECT" "Q3 Invoice") [] (lit "Q3 Invoice"));
        [reflexivity | reflexivity | | constructor].
      unfold named. apply map_eq_caseless. reflexivity.
    + apply Hfrom. constructor; [|constructor].
      intros Hn. apply caseless_ascii in Hn as [_ Hn];
        [discriminate Hn | apply ascii_cp_forallb; reflexivity].
Defined.

Lemma last_header_wins_witness :
  exists email,
    assemble plain_text same {| ref_id := lit "m1" |}
      (invoice_message repeated_headers []) = Ok email /\
    e_subject email = lit "new".
Proof.
  exists {| e_id := lit "m1"; e_subject := lit "new"; e_sender := lit "me";
            e_body := lit "Please pay $500 by Friday."; e_snippet := [] |}.
  split; [vm_compute; reflexivity|].
  apply (last_header_wins plain_text same {| ref_id := lit "m1" |}
           (invoice_message repeated_headers [])
           _ [header "Subject" "old"] [header "from" "me"]
           (header "SUBJECT" "new") (lit "new")).
  - vm_compute. reflexivity.
  - reflexivity.
  - repeat constructor; vm_compute; congruence.
  - reflexivity.
  - unfold named. apply map_eq_caseless. reflexivity.
  - constructor; [|constructor].
    intros Hn. apply caseless_ascii in Hn as [_ Hn];
      [discriminate Hn | apply ascii_cp_forallb; reflexivity].
Defined.

(** * Further properties *)

(** ** PartDecoder: what a decoded text can be *)

Lemma land_FF_octet (x : Z) : octet (Z.land x 0xFF).
Proof.
  unfold octet. change 0xFF with (Z.ones 8). rewrite Z.land_ones by lia.
  change (2 ^ 8) with 256. zlia.
Qed.

Lemma a2b_loop_octets (s : bytes) :
  forall q l p out decoded,
    Forall octet out ->
    Base64.a2b_loop s q l p out = Ok decoded -> Forall octet decoded.
Proof.
  induction s as [|c rest IH]; intros q l p out decoded Hout H.
  - cbn in H. destruct (q =? 0); [|discriminate H]. injection H as <-. exact Hout.
  - cbn [Base64.a2b_loop] in H. cbv zeta in H.
    assert (Hsnoc : forall x, Forall octet (out ++ [Z.land x 0xFF])).
    { intros x. apply Forall_app. split; [exact Hout|].
      constructor; [apply land_FF_octet | constructor]. }
    repeat match type of H with
    | (if ?b then _ else _) = _ => destruct b
    end;
      first [ injection H as <-; exact Hout
            | eapply IH; [|exact H]; first [exact Hout | apply Hsnoc] ].
Qed.

Lemma decode_ignore_scalar_upto (n : nat) :
  forall s, (List.length s <= n)%nat -> Forall octet s ->
    Forall Utf8.scalar (Utf8.decode_ignore s).
Proof.
  induction n as [|n IH]; intros s Hlen Hoct.
  { destruct s; [constructor | cbn in Hlen; lia]. }
  destruct s as [|ch t1]; [constructor|].
  inversion Hoct as [|? ? Hch H1]; subst. unfold octet in Hch.
  cbn [List.length] in Hlen.
  assert (Hval : forall v rest, 0 <= v <= 0x10FFFF ->
            (v < 0xD800 \/ 0xDFFF < v) ->
            Forall Utf8.scalar rest -> Forall Utf8.scalar (v :: rest)).
  { intros v rest Hv Hs Hr. constructor; [|exact Hr].
    split; [exact Hv|]. unfold Utf8.is_surrogate.
    apply andb_false_iff. rewrite !Z.leb_gt. lia. }
  assert (R1 : Forall Utf8.scalar (Utf8.decode_ignore t1))
    by (apply IH; [lia | exact H1]).
  cbn [Utf8.decode_ignore]. unfold Utf8.is_continuation.
  rewrite !shiftl_mul by lia.
  assert (Hnil : Forall Utf8.scalar []) by constructor.
  destruct t1 as [|ch2 t2]; cbv beta iota; rewrite ?shiftl_mul by lia.
  { decided; first [assumption | apply Hval; [lia | lia | assumption]]. }
  inversion H1 as [|? ? Hch2 H2]; subst. unfold octet in Hch2.
  cbn [List.length] in Hlen.
  assert (R2 : Forall Utf8.scalar (Utf8.decode_ignore t2))
    by (apply IH; [lia | exact H2]).
  destruct t2 as [|ch3 t3]; cbv beta iota; rewrite ?shiftl_mul by lia.
  { decided; first [assumption | apply Hval; [lia | lia | assumption]]. }
  inversion H2 as [|? ? Hch3 H3]; subst. unfold octet in Hch3.
  cbn [List.length] in Hlen.
  assert (R3 : Forall Utf8.scalar (Utf8.decode_ignore t3))
    by (apply IH; [lia | exact H3]).
  destruct t3 as [|ch4 t4]; cbv beta iota; rewrite ?shiftl_mul by lia.
  { decided; first [assumption | apply Hval; [lia | lia | assumption]]. }
  inversion H3 as [|? ? Hch4 H4]; subst. unfold octet in Hch4.
  cbn [List.length] in Hlen.
  assert (R4 : Forall Utf8.scalar (Utf8.decode_ignore t4))
    by (apply IH; [lia | exact H4]).
  decided; first [assumption | apply Hval; [lia | lia | assumption]].
Qed.

Lemma decode_ignore_scalar (s : bytes) :
  Forall octet s -> Forall Utf8.scalar (Utf8.decode_ignore s).
Proof. apply (decode_ignore_scalar_upto (List.length s)). lia. Qed.

(** Whatever the payload, a text returned by [_decode_part] holds Unicode
    scalar values only: no surrogate, nothing above U+10FFFF. *)
Theorem decode_part_scalar (data : option str) (text : str) :
  _decode_part data = Ok text -> Forall Utf8.scalar text.
Proof.
  unfold _decode_part. destruct (truthy data); cbn [negb].
  - destruct data as [d|]; [|intros H; injection H as <-; constructor].
    intros H. apply bind_ok in H as (raw & _ & H).
    apply bind_ok in H as (decoded & Hdec & H). injection H as <-.
    apply decode_ignore_scalar.
    unfold Base64.urlsafe_b64decode, Base64.a2b_base64 in Hdec.
    eapply a2b_loop_octets; [|exact Hdec]. constructor.
  - intros H. injection H as <-. constructor.
Qed.

Lemma decode_part_scalar_witness :
  Forall Utf8.scalar [0x20AC; 32; 0x1F600].
Proof.
  apply (decode_part_scalar (Some (lit "4oKsIPCfmIA="))).
  vm_compute. reflexivity.
Defined.

Lemma filter_map_comm {A B} (f : B -> bool) (g : A -> B) (l : list A) :
  filter f (map g l) = map g (filter (fun x => f (g x)) l).
Proof.
  induction l as [|x l IH]; [reflexivity|].
  cbn [map filter]. destruct (f (g x)); cbn [map]; rewrite IH; reflexivity.
Qed.

Lemma translation_ascii (c : Z) :
  is_ascii (Base64.urlsafe_decode_translation c) = is_ascii c.
Proof.
  unfold Base64.urlsafe_decode_translation, is_ascii.
  decide_tests; reflexivity.
Qed.

Lemma translation_idem (c : Z) :
  Base64.urlsafe_decode_translation (Base64.urlsafe_decode_translation c)
  = Base64.urlsafe_decode_translation c.
Proof. unfold Base64.urlsafe_decode_translation. decide_tests; reflexivity. Qed.

Lemma translated_text (d : str) :
  map Base64.urlsafe_decode_translation (filter is_ascii d)
  = filter is_ascii (map Base64.urlsafe_decode_translation d).
Proof.
  rewrite filter_map_comm. f_equal. apply filter_ext.
  intros c. symmetry. apply translation_ascii.
Qed.

(** The two alphabets are interchangeable: payloads that differ only in
    writing [+] for [-] or [/] for [_] decode alike. *)
Theorem decode_part_either_alphabet (d d' : str) :
  Forall Utf8.scalar d -> Forall Utf8.scalar d' ->
  map Base64.urlsafe_decode_translation d
  = map Base64.urlsafe_decode_translation d' ->
  _decode_part (Some d) = _decode_part (Some d').
Proof.
  intros Hd Hd' E.
  rewrite (decode_part_text d Hd), (decode_part_text d' Hd').
  rewrite !translated_text, E. reflexivity.
Qed.

Lemma decode_part_either_alphabet_witness :
  _decode_part (Some (lit "Pz8-")) = _decode_part (Some (lit "Pz8+")).
Proof.
  apply decode_part_either_alphabet;
    [ repeat constructor; vm_compute; congruence
    | repeat constructor; vm_compute; congruence
    | reflexivity ].
Defined.

(** The only exceptions of [_decode_part]: [UnicodeEncodeError] exactly
    when the payload holds a surrogate code point, and otherwise, if any,
    [binascii.Error]. *)
Theorem decode_part_exceptions (d : str) :
  Forall (fun c => 0 <= c <= 0x10FFFF) d ->
  (existsb Utf8.is_surrogate d = true ->
   _decode_part (Some d) = Raise UnicodeEncodeError) /\
  (existsb Utf8.is_surrogate d = false ->
   (exists text, _decode_part (Some d) = Ok text) \/
   _decode_part (Some d) = Raise binascii_Error).
Proof.
  intros Hd. split; intros Hs.
  - destruct d as [|c cs]; [discriminate Hs|].
    unfold _decode_part. cbn [truthy negb].
    rewrite (encode_surrogate _ Hd Hs). reflexivity.
  - assert (Hscalar : Forall Utf8.scalar d).
    { apply Forall_forall. intros c Hc. split.
      - revert c Hc. apply Forall_forall. exact Hd.
      - destruct (Utf8.is_surrogate c) eqn:E; [|reflexivity].
        assert (existsb Utf8.is_surrogate d = true)
          by (apply existsb_exists; exists c; split; assumption).
        congruence. }
    rewrite (decode_part_text d Hscalar).
    destruct (Base64.a2b_loop _ 0 0 0 []) as [decoded|e] eqn:E; cbn [bind].
    + left. eauto.
    + right. rewrite (a2b_loop_raises _ _ _ _ _ _ E). reflexivity.
Qed.

Lemma decode_part_exceptions_witness :
  _decode_part (Some [89; 0xD800; 81]) = Raise UnicodeEncodeError.
Proof.
  apply (decode_part_exceptions [89; 0xD800; 81]).
  - repeat constructor; vm_compute; congruence.
  - reflexivity.
Defined.

Lemma decode_ignore_length_upto (n : nat) :
  forall s, (List.length s <= n)%nat ->
    (List.length (Utf8.decode_ignore s) <= List.length s)%nat.
Proof.
  induction n as [|n IH]; intros s Hlen.
  { destruct s; [cbn; lia | cbn in Hlen; lia]. }
  destruct s as [|ch t1]; [cbn; lia|].
  cbn [List.length] in Hlen.
  assert (R1 := IH t1 ltac:(lia)).
  cbn [Utf8.decode_ignore].
  destruct t1 as [|ch2 t2]; cbv beta iota.
  { repeat match goal with
    | |- context [if ?b then _ else _] => destruct b
    end; cbn [List.length] in *; lia. }
  cbn [List.length] in Hlen. assert (R2 := IH t2 ltac:(lia)).
  destruct t2 as [|ch3 t3]; cbv beta iota.
  { repeat match goal with
    | |- context [if ?b then _ else _] => destruct b
    end; cbn [List.length] in *; lia. }
  cbn [List.length] in Hlen. assert (R3 := IH t3 ltac:(lia)).
  destruct t3 as [|ch4 t4]; cbv beta iota.
  { repeat match goal with
    | |- context [if ?b then _ else _] => destruct b
    end; cbn [List.length] in *; lia. }
  cbn [List.length] in Hlen. assert (R4 := IH t4 ltac:(lia)).
  repeat match goal with
  | |- context [if ?b then _ else _] => destruct b
  end; cbn [List.length] in *; lia.
Qed.

Lemma a2b_loop_length (s : bytes) :
  forall q l p out decoded, 0 <= q < 4 ->
    Base64.a2b_loop (map Base64.urlsafe_decode_translation s) q l p out
    = Ok decoded ->
    4 * Z.of_nat (List.length decoded) + 4 * (if q <? 2 then 0 else q - 1)
    <= 4 * Z.of_nat (List.length out) + 3 * (q + data_chars s).
Proof.
  unfold data_chars.
  induction s as [|c rest IH]; intros q l p out decoded Hq H.
  - cbn [map Base64.a2b_loop] in H. destruct (Z.eqb_spec q 0); [|discriminate H].
    injection H as <-. subst q. cbn [filter List.length].
    change (0 <? 2) with true. cbv iota. lia.
  - cbn [map Base64.a2b_loop] in H. rewrite translation_pad in H.
    cbv zeta in H. rewrite is_data_char_table in H. cbn [filter].
    destruct (Z.eqb_spec c Base64.PAD) as [->|Hc].
    + change (is_data_char Base64.PAD) with false. cbv iota.
      destruct (Z.leb_spec 2 q).
      * destruct (Z.leb_spec 4 (q + (p + 1))).
        { injection H as <-. destruct (Z.ltb_spec q 2); lia. }
        { apply IH in H; [exact H | lia]. }
      * apply IH in H; [exact H | lia].
    + destruct (is_data_char c); cbn [negb] in H; cbv iota in H.
      * cbn [List.length]. rewrite Nat2Z.inj_succ.
        destruct (Z.eqb_spec q 0) as [->|H0];
          [|destruct (Z.eqb_spec q 1) as [->|H1];
            [|destruct (Z.eqb_spec q 2) as [->|H2];
              [|assert (q = 3) by lia; subst q]]];
          (apply IH in H; [|lia]);
          rewrite ?length_app in H; cbn [List.length] in H;
          repeat match goal with
          | |- context [?a <? ?b] => destruct (Z.ltb_spec a b); try lia
          | H' : context [?a <? ?b] |- _ => destruct (Z.ltb_spec a b); try lia
          end.
      * apply IH in H; [exact H | lia].
Qed.

(** A decoded text is never longer than three quarters of the number of
    data characters in the payload. *)
Theorem decode_part_length (d text : str) :
  Forall Utf8.scalar d ->
  _decode_part (Some d) = Ok text ->
  4 * Z.of_nat (List.length text) <= 3 * data_chars d.
Proof.
  intros Hd H. rewrite (decode_part_text d Hd) in H.
  apply bind_ok in H as (decoded & Hdec & H). injection H as <-.
  apply a2b_loop_length in Hdec; [|lia].
  unfold data_chars in Hdec.
  rewrite (proj1 (filter_filter is_data_char is_ascii d
             (fun c H => keeps_ascii c (is_data_char_keeps c H)))) in Hdec.
  fold (data_chars d) in Hdec. change (0 <? 2) with true in Hdec.
  cbv iota in Hdec. cbn [List.length] in Hdec.
  pose proof (decode_ignore_length_upto _ decoded (le_n _)). lia.
Qed.

Lemma decode_part_length_witness :
  4 * Z.of_nat (List.length (lit "Please pay $500 by Friday."))
  <= 3 * data_chars (lit "UGxlYXNlIHBheSAkNTAwIGJ5IEZyaWRheS4=").
Proof.
  apply decode_part_length.
  - apply Forall_forall. intros c Hc.
    assert (H : forallb (fun c => in_range 0 128 c)
                  (lit "UGxlYXNlIHBheSAkNTAwIGJ5IEZyaWRheS4=") = true)
      by (vm_compute; reflexivity).
    rewrite forallb_forall in H. apply H in Hc. apply in_range_spec in Hc.
    split; [lia|]. unfold Utf8.is_surrogate.
    destruct (Z.leb_spec 0xD800 c); [lia | reflexivity].
  - vm_compute. reflexivity.
Defined.

(** ** BodyExtractor: which parts count, and when it fails *)

Lemma visit_irrelevant (p : MessagePart) (st : buckets) :
  relevant p = false -> visit p st = Ok st.
Proof.
  unfold relevant, wanted, visit. intros H.
  apply orb_false_iff in H as [Hp Hh].
  destruct (truthy (get_data p)); [|reflexivity].
  cbn [andb] in Hp, Hh. rewrite Hp, Hh. reflexivity.
Qed.

Lemma for_each_visit_relevant (l : list MessagePart) (st : buckets) :
  for_each visit l st = for_each visit (filter relevant l) st.
Proof.
  revert st. induction l as [|p l IH]; intros st; [reflexivity|].
  cbn [filter for_each]. destruct (relevant p) eqn:Hr.
  - cbn [for_each]. destruct (visit p st); cbn [bind]; [apply IH|reflexivity].
  - rewrite (visit_irrelevant p st Hr). cbn [bind]. apply IH.
Qed.

(** Only parts with data whose MIME type is exactly text/plain or
    text/html are decoded: the buckets are those of these parts alone, so
    the data of any other part (an attachment, say) is never looked at. *)
Theorem collect_relevant_only (parts : list MessagePart) :
  collect parts = for_each visit (filter relevant (visited parts)) ([], []).
Proof.
  unfold collect. rewrite for_each_visit_visited.
  apply for_each_visit_relevant.
Qed.

Lemma visit_relevant_ok (p : MessagePart) (st : buckets) (t : str) :
  relevant p = true -> _decode_part (get_data p) = Ok t ->
  exists st', visit p st = Ok st'.
Proof.
  unfold relevant, wanted, visit. intros Hr Hd.
  destruct (truthy (get_data p)); [|discriminate Hr]. cbn [andb] in Hr.
  rewrite Hd. cbn [bind].
  destruct (str_eqb (get_mime p) text_plain); [eauto|].
  destruct (str_eqb (get_mime p) text_html); eauto.
Qed.

Lemma visit_relevant_raise (p : MessagePart) (st : buckets) (e : exn) :
  relevant p = true -> _decode_part (get_data p) = Raise e ->
  visit p st = Raise e.
Proof.
  unfold relevant, wanted, visit. intros Hr Hd.
  destruct (truthy (get_data p)); [|discriminate Hr]. cbn [andb] in Hr.
  rewrite Hd. cbn [bind].
  destruct (str_eqb (get_mime p) text_plain); [reflexivity|].
  cbn [orb] in Hr. rewrite Hr. reflexivity.
Qed.

Lemma for_each_visit_total (l : list MessagePart) :
  (forall p, In p l -> relevant p = true -> decodes p) ->
  forall st, exists st', for_each visit l st = Ok st'.
Proof.
  induction l as [|p l IH]; intros Hall st; [eexists; reflexivity|].
  cbn [for_each].
  assert (Hp : exists st1, visit p st = Ok st1).
  { destruct (relevant p) eqn:Hr.
    - destruct (Hall p (or_introl eq_refl) Hr) as [t Ht].
      exact (visit_relevant_ok p st t Hr Ht).
    - exists st. apply visit_irrelevant. exact Hr. }
  destruct Hp as [st1 ->]. cbn [bind].
  apply IH. intros q Hq. apply Hall. right. exact Hq.
Qed.

Lemma relevant_wanted (p : MessagePart) (l : list MessagePart) :
  In p l -> relevant p = true ->
  In p (filter (wanted text_plain) l) \/ In p (filter (wanted text_html) l).
Proof.
  unfold relevant. intros Hin Hr. apply orb_true_iff in Hr as [Hr|Hr].
  - left. apply filter_In. split; assumption.
  - right. apply filter_In. split; assumption.
Qed.

Lemma separated_length (rest : list str) :
  Z.of_nat (List.length (flat_map (fun x => 10 :: 10 :: x) rest))
  = Z.of_nat (List.length (List.concat rest)) + 2 * Z.of_nat (List.length rest).
Proof.
  induction rest as [|x rest IH]; [reflexivity|].
  cbn [flat_map List.concat List.length app].
  rewrite !length_app, !Nat2Z.inj_succ, !Nat2Z.inj_add, IH. lia.
Qed.

Section ExtractorFailures.

Variable get_text : str -> result str.

(** Without data at the root, extraction returns a body exactly when every
    text/plain and text/html part with data, at the two levels under the
    root, decodes and, should the html fallback be taken, the stripper
    returns for the text of the first html part. *)
Theorem extract_returns_iff (root : MessagePart) :
  truthy (get_data root) = false ->
  ((exists body, extract_body_from_payload get_text root = Ok body) <->
   ((forall p, In p (visited (get_parts root)) -> relevant p = true ->
       decodes p) /\
    (filter (wanted text_plain) (visited (get_parts root)) = [] ->
     forall p later t,
       filter (wanted text_html) (visited (get_parts root)) = p :: later ->
       _decode_part (get_data p) = Ok t ->
       exists body, get_text t = Ok body))).
Proof.
  intros Hroot. unfold extract_body_from_payload. rewrite Hroot. split.
  - intros [body H]. apply bind_ok in H as ([tp hp] & Hc & Hsel).
    destruct (collect_ok _ _ _ Hc) as [Ht Hh]. split.
    + intros p Hin Hr.
      destruct (relevant_wanted p _ Hin Hr) as [Hw|Hw].
      * destruct (decoded_from_In _ _ p Ht Hw) as (t & Hd & _). exists t. exact Hd.
      * destruct (decoded_from_In _ _ p Hh Hw) as (t & Hd & _). exists t. exact Hd.
    + intros Enone p later t Ehtml Hd. rewrite Enone in Ht. rewrite Ehtml in Hh.
      inversion Ht; subst. inversion Hh as [|? h ? hp' Hd' _]; subst.
      rewrite Hd in Hd'. injection Hd' as <-.
      exists body. exact Hsel.
  - intros [Hall Hstrip]. unfold collect. rewrite for_each_visit_visited.
    destruct (for_each_visit_total _ Hall ([], [])) as [[tp hp] Hc].
    rewrite Hc. cbn [bind]. unfold select. cbn [fst snd].
    apply for_each_visit_ok in Hc as (tp' & hp' & E & Ht & Hh).
    cbn in E. injection E as -> ->.
    destruct tp' as [|t tp']; [|eauto].
    destruct hp' as [|h hp']; [eauto|].
    inversion Ht as [Enone|]; subst.
    inversion Hh as [|p ? later ? Hd _ Ehtml]; subst.
    symmetry in Enone, Ehtml.
    exact (Hstrip Enone p later h Ehtml Hd).
Qed.

(** The first part, in visiting order, whose data fails to decode decides
    the outcome: its exception is raised, be it an html part when text
    parts are present too. *)
Theorem extract_first_failure
  (root p : MessagePart) (before after : list MessagePart) (e : exn) :
  truthy (get_data root) = false ->
  visited (get_parts root) = before ++ p :: after ->
  (forall q, In q before -> relevant q = true -> decodes q) ->
  relevant p = true ->
  _decode_part (get_data p) = Raise e ->
  extract_body_from_payload get_text root = Raise e.
Proof.
  intros Hroot Hv Hbefore Hr Hd.
  unfold extract_body_from_payload. rewrite Hroot.
  unfold collect. rewrite for_each_visit_visited, Hv, for_each_app.
  destruct (for_each_visit_total before Hbefore ([], [])) as [st ->].
  cbn [bind for_each]. rewrite (visit_relevant_raise p st e Hr Hd).
  reflexivity.
Qed.

(** A payload in which no part within reach is a text/plain or text/html
    part with data gives the sentinel, whatever data its other parts
    carry. *)
Theorem extract_nothing_relevant (root : MessagePart) :
  truthy (get_data root) = false ->
  (forall p, In p (visited (get_parts root)) -> relevant p = false) ->
  extract_body_from_payload get_text root = Ok no_body.
Proof.
  intros Hroot Hnone. unfold extract_body_from_payload. rewrite Hroot.
  unfold collect. rewrite for_each_visit_visited, for_each_visit_relevant.
  replace (filter relevant (visited (get_parts root))) with (@nil MessagePart).
  - reflexivity.
  - symmetry. induction (visited (get_parts root)) as [|p l IH]; [reflexivity|].
    cbn [filter]. rewrite (Hnone p (or_introl eq_refl)).
    apply IH. intros q Hq. apply Hnone. right. exact Hq.
Qed.

(** A body made of text parts is the decoded text parts in collecting
    order, with two line feeds between consecutive parts and nothing added
    at either end; so its length is that of the parts together plus two for
    each part after the first. *)
Theorem extract_text_body (root : MessagePart) (t : str) (rest hp : list str) :
  truthy (get_data root) = false ->
  collect (get_parts root) = Ok (t :: rest, hp) ->
  extract_body_from_payload get_text root
  = Ok (t ++ flat_map (fun x => 10 :: 10 :: x) rest) /\
  forall body, extract_body_from_payload get_text root = Ok body ->
    Z.of_nat (List.length body)
    = Z.of_nat (List.length (List.concat (t :: rest)))
      + 2 * Z.of_nat (List.length rest).
Proof.
  intros Hroot Hc.
  assert (E : extract_body_from_payload get_text root
              = Ok (t ++ flat_map (fun x => 10 :: 10 :: x) rest)).
  { unfold extract_body_from_payload. rewrite Hroot, Hc. cbn [bind].
    unfold select. cbn [fst]. rewrite join_blank_line. reflexivity. }
  split; [exact E|].
  intros body H. rewrite E in H. injection H as <-.
  cbn [List.concat]. rewrite !length_app, !Nat2Z.inj_add.
  rewrite separated_length. lia.
Qed.

End ExtractorFailures.

Lemma for_each_visit_grows (l : list MessagePart) (st st' : buckets) :
  for_each visit l st = Ok st' ->
  (List.length (fst st) <= List.length (fst st'))%nat.
Proof.
  intros H. apply for_each_visit_ok in H as (tp & hp & -> & _).
  cbn [fst]. rewrite length_app. lia.
Qed.

Lemma visit_text_nonempty (p : MessagePart) (st st' : buckets) :
  wanted text_plain p = true -> visit p st = Ok st' -> fst st' <> [].
Proof.
  unfold wanted, visit. intros Hw H.
  apply andb_true_iff in Hw as [Hd Hm]. rewrite Hd, Hm in H.
  apply bind_ok in H as (t & _ & H). injection H as <-. cbn [fst].
  intros E. apply app_eq_nil in E as [_ E]. discriminate E.
Qed.

Lemma for_each_visit_text_nonempty (l : list MessagePart) (p : MessagePart) :
  In p l -> wanted text_plain p = true ->
  forall st st', for_each visit l st = Ok st' -> fst st' <> [].
Proof.
  induction l as [|q l IH]; intros Hin Hw st st' H; [destruct Hin|].
  cbn [for_each] in H. apply bind_ok in H as (st1 & H1 & H2).
  destruct Hin as [->|Hin].
  - pose proof (visit_text_nonempty p st st1 Hw H1) as Hne.
    pose proof (for_each_visit_grows l st1 st' H2) as Hlen.
    destruct (fst st1); [congruence|]. intros E. rewrite E in Hlen.
    cbn in Hlen. lia.
  - exact (IH Hin Hw st1 st' H2).
Qed.

(** The html stripper is consulted only as a fallback: when the root has
    data of its own, or some text/plain part with data is within reach, the
    outcome does not depend on it. *)
Theorem extract_ignores_get_text
  (get_text get_text' : str -> result str) (root : MessagePart) :
  truthy (get_data root) = true \/
  (exists p, In p (visited (get_parts root)) /\ wanted text_plain p = true) ->
  extract_body_from_payload get_text root
  = extract_body_from_payload get_text' root.
Proof.
  intros H. unfold extract_body_from_payload.
  destruct (truthy (get_data root)) eqn:Hroot; [reflexivity|].
  destruct H as [H|(p & Hin & Hw)]; [discriminate H|].
  destruct (collect (get_parts root)) as [st|e] eqn:Hc; [|reflexivity].
  cbn [bind]. unfold collect in Hc. rewrite for_each_visit_visited in Hc.
  pose proof (for_each_visit_text_nonempty _ p Hin Hw _ _ Hc) as Hne.
  unfold select. destruct (fst st); [congruence | reflexivity].
Qed.

Lemma extract_ignores_get_text_witness :
  extract_body_from_payload (fun s => Ok (42 :: s))
    (container [leaf text_html "dHdv"; leaf text_plain "YQ=="])
  = extract_body_from_payload plain_text
      (container [leaf text_html "dHdv"; leaf text_plain "YQ=="]).
Proof.
  apply extract_ignores_get_text. right.
  exists (leaf text_plain "YQ=="). split; [right; left; reflexivity|].
  reflexivity.
Defined.

Lemma extract_returns_iff_witness :
  (exists body,
     extract_body_from_payload plain_text
       (container [leaf text_plain "YQ=="; leaf (lit "application/pdf") "YQ"])
     = Ok body) /\
  (exists body,
     extract_body_from_payload (fun s => Ok (42 :: s))
       (container [leaf text_html "b25l"]) = Ok body) /\
  ~ (exists body,
       extract_body_from_payload (fun _ => Raise ParserRejectedMarkup)
         (container [leaf text_html "b25l"]) = Ok body).
Proof.
  split; [|split].
  - apply (extract_returns_iff plain_text
             (container [leaf text_plain "YQ==";
                         leaf (lit "application/pdf") "YQ"]));
      [reflexivity|].
    split.
    + intros p [<-|[<-|[]]] Hr; [|discriminate Hr].
      exists (lit "a"). vm_compute. reflexivity.
    + intros H. vm_compute in H. discriminate H.
  - apply (extract_returns_iff (fun s => Ok (42 :: s))
             (container [leaf text_html "b25l"]));
      [reflexivity|].
    split.
    + intros p [<-|[]] _. exists (lit "one"). vm_compute. reflexivity.
    + intros _ p later t _ _. eexists. reflexivity.
  - intros H.
    apply (extract_returns_iff (fun _ => Raise ParserRejectedMarkup)
             (container [leaf text_html "b25l"]) eq_refl) in H.
    destruct H as [_ H].
    destruct (H eq_refl (leaf text_html "b25l") [] (lit "one") eq_refl)
      as [body Hb]; [vm_compute; reflexivity | discriminate Hb].
Defined.

Lemma extract_text_body_witness :
  extract_body_from_payload plain_text
    (container [leaf text_plain "YQ=="; leaf text_html "dHdv";
                leaf text_plain "Yg=="])
  = Ok (lit "a" ++ [10; 10] ++ lit "b") /\
  forall body,
    extract_body_from_payload plain_text
      (container [leaf text_plain "YQ=="; leaf text_html "dHdv";
                  leaf text_plain "Yg=="]) = Ok body ->
    Z.of_nat (List.length body) = 4.
Proof.
  apply (extract_text_body plain_text
           (container [leaf text_plain "YQ=="; leaf text_html "dHdv";
                       leaf text_plain "Yg=="])
           (lit "a") [lit "b"] [lit "two"]).
  - reflexivity.
  - vm_compute. reflexivity.
Defined.

Lemma extract_first_failure_witness :
  extract_body_from_payload plain_text
    (container [leaf text_plain "YQ=="; leaf text_html "YQ"])
  = Raise binascii_Error.
Proof.
  apply (extract_first_failure plain_text
           (container [leaf text_plain "YQ=="; leaf text_html "YQ"])
           (leaf text_html "YQ") [leaf text_plain "YQ=="] []).
  - reflexivity.
  - reflexivity.
  - intros q [<-|[]] _. exists (lit "a"). vm_compute. reflexivity.
  - reflexivity.
  - vm_compute. reflexivity.
Defined.

Lemma extract_nothing_relevant_witness :
  extract_body_from_payload plain_text
    (container [leaf (lit "application/pdf") "YQ";
                node (lit "TEXT/PLAIN") "YQ==" [leaf (lit "image/png") "!"]])
  = Ok no_body.
Proof.
  apply extract_nothing_relevant; [reflexivity|].
  intros p [<-|[<-|[<-|[]]]]; reflexivity.
Defined.

(** ** InboxFetcher: headers, failures and the order of requests *)

Lemma last_app_default {A} (l1 l2 : list A) (d : A) :
  last (l1 ++ l2) d = last l2 (last l1 d).
Proof.
  destruct l2 as [|x l2 _] using rev_ind.
  - rewrite app_nil_r. reflexivity.
  - rewrite app_assoc, !last_last. reflexivity.
Qed.

Section HeaderScan.

Variable unicode_lower : str -> str.

Lemma fold_header_step (hs : list Header) (subject sender : str) :
  fold_left (header_step unicode_lower) hs (subject, sender)
  = (last (assigned unicode_lower "subject" hs) subject,
     last (assigned unicode_lower "from" hs) sender).
Proof.
  revert subject sender. induction hs as [|h hs IH]; intros subject sender;
    [reflexivity|].
  cbn [fold_left]. unfold assigned. cbn [flat_map].
  fold (assigned unicode_lower "subject" hs).
  fold (assigned unicode_lower "from" hs).
  rewrite !last_app_default. unfold header_step. cbn [fst snd].
  destruct (str_eqb (lower unicode_lower (from_opt [] (name h))) (lit "subject"))
    eqn:Es.
  - apply str_eqb_eq in Es. rewrite Es.
    change (str_eqb (lit "subject") (lit "from")) with false.
    rewrite IH. destruct (value h); reflexivity.
  - destruct (str_eqb (lower unicode_lower (from_opt [] (name h))) (lit "from"));
      rewrite IH; destruct (value h); reflexivity.
Qed.

(** The subject of a record is the value of the last header that is named
    subject (after [lower]) and has a value, or the default when there is
    none; so is the sender for the name from.  Headers without a value, and
    headers under any other name, change nothing. *)
Theorem scan_headers_last (hs : list Header) :
  scan_headers unicode_lower hs
  = (last (assigned unicode_lower "subject" hs) no_subject,
     last (assigned unicode_lower "from" hs) unknown_sender).
Proof. apply fold_header_step. Qed.

End HeaderScan.

Section FetchFailures.

Variable get_text : str -> result str.
Variable unicode_lower : str -> str.
Variable World : Type.
Variable messages_list : Z -> World -> result ListResponse * World.
Variable messages_get : str -> World -> result MessageData * World.

Lemma fetch_loop_split (l1 l2 : list MessageRef) (results : list Email) (w : World) :
  fetch_loop get_text unicode_lower World messages_get (l1 ++ l2) results w
  = match fetch_loop get_text unicode_lower World messages_get l1 results w with
    | (Ok r, w') =>
        fetch_loop get_text unicode_lower World messages_get l2 r w'
    | (Raise e, w') => (Raise e, w')
    end.
Proof.
  revert results w. induction l1 as [|m l1 IH]; intros results w; [reflexivity|].
  cbn [app fetch_loop]. unfold io_bind, io_lift.
  destruct (messages_get (ref_id m) w) as [[mdata|e] w1]; [|reflexivity].
  destruct (assemble get_text unicode_lower m mdata) as [email|e];
    [apply IH | reflexivity].
Qed.

(** Fetching a listing in two stretches: the second starts from the
    records and the state that the first one leaves, and is not started
    when the first one raises. *)
Theorem fetch_loop_app (l1 l2 : list MessageRef) (results : list Email) (w : World) :
  fetch_loop get_text unicode_lower World messages_get (l1 ++ l2) results w
  = match fetch_loop get_text unicode_lower World messages_get l1 results w with
    | (Ok r, w') =>
        fetch_loop get_text unicode_lower World messages_get l2 r w'
    | (Raise e, w') => (Raise e, w')
    end.
Proof. apply fetch_loop_split. Qed.

(** No partial batch: when the retrieval of a listed message raises, or
    its body fails to decode, the whole call raises that exception, the
    records assembled so far are lost, and the state is the one left by
    that retrieval: no later message is requested. *)
Theorem fetch_aborts
  (max_results : Z) (w w1 w2 w3 : World) (resp : ListResponse)
  (before after : list MessageRef) (m : MessageRef)
  (done : list Email) (e : exn) :
  messages_list max_results w = (Ok resp, w1) ->
  from_opt [] (messages resp) = before ++ m :: after ->
  fetch_loop get_text unicode_lower World messages_get before [] w1
  = (Ok done, w2) ->
  (messages_get (ref_id m) w2 = (Raise e, w3) \/
   exists mdata, messages_get (ref_id m) w2 = (Ok mdata, w3) /\
     assemble get_text unicode_lower m mdata = Raise e) ->
  fetch_unread_emails get_text unicode_lower World messages_list
    messages_get max_results w = (Raise e, w3).
Proof.
  intros Hlist Hmsgs Hbefore Hfail.
  unfold fetch_unread_emails. unfold io_bind at 1. rewrite Hlist, Hmsgs.
  rewrite fetch_loop_split, Hbefore. cbn [fetch_loop]. unfold io_bind, io_lift.
  destruct Hfail as [->|(mdata & -> & Ha)]; [reflexivity|].
  rewrite Ha. reflexivity.
Qed.

(** An empty mailbox: when the listing has no [messages] key, or an empty
    list under it, the result is the empty list and no message is
    requested, whatever [max_results] is. *)
Theorem fetch_empty_listing
  (max_results : Z) (w w1 : World) (resp : ListResponse) :
  messages_list max_results w = (Ok resp, w1) ->
  messages resp = None \/ messages resp = Some [] ->
  fetch_unread_emails get_text unicode_lower World messages_list
    messages_get max_results w = (Ok [], w1).
Proof.
  intros Hlist Hempty. unfold fetch_unread_emails, io_bind. rewrite Hlist.
  destruct Hempty as [->| ->]; reflexivity.
Qed.

End FetchFailures.

(** Under a client that records the identifiers it is asked for, the
    requests of a call are the listed identifiers, in listing order and
    once each, up to and including the first message that cannot be
    retrieved or assembled. *)
Theorem requests_follow_listing
  (get_text : str -> result str) (unicode_lower : str -> str)
  (table : str -> result MessageData)
  (resp : ListResponse) (max_results : Z) (log : list str) :
  snd (fetch_unread_emails get_text unicode_lower (list str)
         (recording_list (Ok resp)) (recording_get table) max_results log)
  = log ++ requested (assembles get_text unicode_lower table)
             (from_opt [] (messages resp)).
Proof.
  unfold fetch_unread_emails, recording_list. unfold io_bind at 1.
  generalize (@nil Email) as results. revert log.
  induction (from_opt [] (messages resp)) as [|m msgs IH]; intros log results.
  - cbn. rewrite app_nil_r. reflexivity.
  - cbn [fetch_loop requested]. unfold io_bind, io_lift, recording_get, assembles.
    destruct (table (ref_id m)) as [mdata|e]; cbn [snd].
    + destruct (assemble get_text unicode_lower m mdata) as [email|e]; cbn [snd].
      * fold (assembles get_text unicode_lower table).
        specialize (IH (log ++ [ref_id m]) (results ++ [email])).
        unfold recording_get in IH. rewrite IH, <- app_assoc. reflexivity.
      * reflexivity.
    + reflexivity.
Qed.

Lemma fetch_aborts_witness :
  fetch_unread_emails plain_text same (list str)
    (recording_list (Ok {| messages := Some three_refs |}))
    (recording_get flaky_table) 10 []
  = (Raise (ServiceError 503), [lit "m1"; lit "m2"]).
Proof.
  apply (fetch_aborts plain_text same (list str)
           (recording_list (Ok {| messages := Some three_refs |}))
           (recording_get flaky_table) 10 [] [] [lit "m1"] [lit "m1"; lit "m2"]
           {| messages := Some three_refs |}
           [ {| ref_id := lit "m1" |} ] [ {| ref_id := lit "m3" |} ]
           {| ref_id := lit "m2" |}
           [ {| e_id := lit "m1"; e_subject := lit "Q3 Invoice";
                e_sender := lit "billing@acme.test";
                e_body := lit "Please pay $500 by Friday.";
                e_snippet := lit "m1" |} ]).
  - reflexivity.
  - reflexivity.
  - vm_compute. reflexivity.
  - left. reflexivity.
Defined.

Lemma fetch_empty_listing_witness :
  fetch_unread_emails plain_text same (list str)
    (recording_list (Ok {| messages := None |}))
    (recording_get flaky_table) 10 []
  = (Ok [], []).
Proof.
  apply (fetch_empty_listing plain_text same (list str)
           (recording_list (Ok {| messages := None |}))
           (recording_get flaky_table) 10 [] [] {| messages := None |}).
  - reflexivity.
  - left. reflexivity.
Defined.

(** ** The analyzer *)

Lemma lstrip_split (s : str) :
  exists pre, s = pre ++ lstrip s /\ forallb isspace pre = true.
Proof.
  induction s as [|c s (pre & E & Hpre)]; [exists []; split; reflexivity|].
  cbn [lstrip]. destruct (isspace c) eqn:Hc.
  - exists (c :: pre). cbn [app forallb]. rewrite Hc, Hpre, <- E.
    split; reflexivity.
  - exists []. split; reflexivity.
Qed.

Lemma lstrip_head (s : str) (c : Z) (rest : str) :
  lstrip s = c :: rest -> isspace c = false.
Proof.
  induction s as [|x s IH]; [discriminate|].
  cbn [lstrip]. destruct (isspace x) eqn:Hx; [exact IH|].
  intros E. injection E as <- _. exact Hx.
Qed.

Lemma forallb_rev {A} (f : A -> bool) (l : list A) :
  forallb f l = true -> forallb f (rev l) = true.
Proof.
  rewrite !forallb_forall. intros H x Hx. apply H. apply in_rev. exact Hx.
Qed.

(** [strip] removes white space, and only at the two ends. *)
Lemma strip_spec (s : str) : stripped_of s (strip s).
Proof.
  destruct (lstrip_split s) as (pre & Es & Hpre).
  destruct (lstrip_split (rev (lstrip s))) as (pre2 & Er & Hpre2).
  assert (Ea : lstrip s = strip s ++ rev pre2).
  { unfold strip. rewrite <- rev_app_distr, <- Er, rev_involutive. reflexivity. }
  exists pre, (rev pre2). split; [rewrite <- Ea; exact Es|].
  split; [exact Hpre|]. split; [apply forallb_rev; exact Hpre2|].
  split.
  - intros c rest E. rewrite E in Ea. cbn [app] in Ea.
    exact (lstrip_head s c _ Ea).
  - intros c rest E. apply (lstrip_head (rev (lstrip s)) c (rev rest)).
    unfold strip in E. apply (f_equal (@rev Z)) in E.
    rewrite rev_involutive, rev_app_distr in E. exact E.
Qed.

Section AnalyzerProperties.

Variable World : Type.
Variable summary_run : str -> World -> result str * World.
Variable classify_run : str -> World -> result str * World.
Variable extract_run : str -> World -> result str * World.

(** A returned analysis: the three chains ran in the order summary,
    category, extraction, each on the same text and on the state left by
    the one before; subject and sender are those of the email; and each of
    the three answers is kept without the white space at its ends, and
    otherwise unchanged. *)
Theorem analyze_email_result (email : Email) (w w' : World) (a : Analysis) :
  analyze_email World summary_run classify_run extract_run email w
  = (Ok a, w') ->
  exists raw1 raw2 raw3 w1 w2,
    summary_run (email_text email) w = (Ok raw1, w1) /\
    classify_run (email_text email) w1 = (Ok raw2, w2) /\
    extract_run (email_text email) w2 = (Ok raw3, w') /\
    stripped_of raw1 (a_summary a) /\
    stripped_of raw2 (a_category a) /\
    stripped_of raw3 (a_extracted a) /\
    a_subject a = e_subject email /\ a_sender a = e_sender email.
Proof.
  unfold analyze_email, io_bind, io_ret. intros H.
  destruct (summary_run (email_text email) w) as [[raw1|e] w1] eqn:H1;
    [|discriminate H].
  destruct (classify_run (email_text email) w1) as [[raw2|e] w2] eqn:H2;
    [|discriminate H].
  destruct (extract_run (email_text email) w2) as [[raw3|e] w3] eqn:H3;
    [|discriminate H].
  injection H as <- <-.
  exists raw1, raw2, raw3, w1, w2.
  cbn [a_summary a_category a_extracted a_subject a_sender].
  split; [reflexivity|]. split; [exact H2|]. split; [exact H3|].
  do 3 (split; [apply strip_spec|]).
  split; reflexivity.
Qed.

End AnalyzerProperties.

Lemma split_at_line_feed (a a' r r' : str) :
  no_line_feed a -> no_line_feed a' ->
  a ++ 10 :: r = a' ++ 10 :: r' -> a = a' /\ r = r'.
Proof.
  unfold no_line_feed. revert a'.
  induction a as [|x a IH]; intros [|y a'] Ha Ha' E; cbn [app] in E.
  - injection E as <-. split; reflexivity.
  - injection E as <- _. exfalso. apply Ha'. left. reflexivity.
  - injection E as -> _. exfalso. apply Ha. left. reflexivity.
  - injection E as <- E.
    destruct (IH a') as [<- <-]; [| |exact E|split; reflexivity].
    + intros H. apply Ha. right. exact H.
    + intros H. apply Ha'. right. exact H.
Qed.

(** The text handed to the chains determines the subject, the sender and
    the body, provided neither subject nor sender holds a line feed. *)
Theorem email_text_injective (e1 e2 : Email) :
  no_line_feed (e_subject e1) -> no_line_feed (e_subject e2) ->
  no_line_feed (e_sender e1) -> no_line_feed (e_sender e2) ->
  email_text e1 = email_text e2 ->
  e_subject e1 = e_subject e2 /\ e_sender e1 = e_sender e2 /\
  e_body e1 = e_body e2.
Proof.
  intros Hs1 Hs2 Hf1 Hf2 E. unfold email_text in E.
  apply app_inv_head in E. cbn [app] in E.
  apply split_at_line_feed in E as [Hsub E]; [|assumption..].
  apply app_inv_head in E.
  apply split_at_line_feed in E as [Hsender E]; [|assumption..].
  injection E as Hbody. repeat split; assumption.
Qed.

(** Line feeds are not escaped: a subject that ends in a forged From line
    gives the same text as the email in which that line is the start of the
    sender. *)
Theorem email_text_forged_line (id snip s x y body : str) :
  email_text {| e_id := id; e_subject := s ++ [10] ++ lit "From: " ++ x;
                e_sender := y; e_body := body; e_snippet := snip |}
  = email_text {| e_id := id; e_subject := s;
                  e_sender := x ++ [10] ++ lit "From: " ++ y;
                  e_body := body; e_snippet := snip |}.
Proof.
  unfold email_text. cbn [e_subject e_sender e_body].
  rewrite <- !app_assoc. reflexivity.
Qed.

Example strip_answer :
  strip ([32; 10] ++ lit "Pay $500." ++ [32; 0xA0; 10]) = lit "Pay $500.".
Proof. vm_compute. reflexivity. Qed.

Lemma analyze_email_result_witness :
  exists raw1 raw2 raw3 w1 w2,
    canned_chain "Pay $500." (email_text invoice_email) 0%nat = (Ok raw1, w1) /\
    canned_chain "invoice" (email_text invoice_email) w1 = (Ok raw2, w2) /\
    canned_chain "{amount: 500}" (email_text invoice_email) w2 = (Ok raw3, 3%nat) /\
    stripped_of raw1 (lit "Pay $500.") /\
    stripped_of raw2 (lit "invoice") /\
    stripped_of raw3 (lit "{amount: 500}") /\
    lit "Q3 Invoice" = e_subject invoice_email /\
    lit "billing@acme.test" = e_sender invoice_email.
Proof.
  apply (analyze_email_result nat (canned_chain "Pay $500.")
           (canned_chain "invoice") (canned_chain "{amount: 500}")
           invoice_email 0%nat 3%nat
           {| a_subject := lit "Q3 Invoice"; a_sender := lit "billing@acme.test";
              a_summary := lit "Pay $500."; a_category := lit "invoice";
              a_extracted := lit "{amount: 500}" |}).
  vm_compute. reflexivity.
Defined.

Lemma email_text_injective_witness :
  e_subject invoice_email = lit "Q3 Invoice" /\
  e_sender invoice_email = lit "billing@acme.test" /\
  e_body invoice_email = lit "Please pay $500 by Friday.".
Proof.
  assert (Hs : no_line_feed (lit "Q3 Invoice")).
  { intros H. vm_compute in H.
    repeat (destruct H as [H|H]; [discriminate H|]). exact H. }
  assert (Hf : no_line_feed (lit "billing@acme.test")).
  { intros H. vm_compute in H.
    repeat (destruct H as [H|H]; [discriminate H|]). exact H. }
  apply (email_text_injective invoice_email
           {| e_id := lit "other"; e_subject := lit "Q3 Invoice";
              e_sender := lit "billing@acme.test";
              e_body := lit "Please pay $500 by Friday."; e_snippet := [] |});
    first [exact Hs | exact Hf | reflexivity].
Defined.
